(** * cachecat: a shallow embedding of the tunnelling engine

    The development follows the layout of the Python package:

    - [session]  (cachecat/session.py)  token derivation and the stack iterator;
    - [base64]   the two standard-library codecs that cachecat/cache.py calls;
    - [cache]    (cachecat/cache.py)    HIT/MISS classification and extraction;
    - [cio]      (cachecat/io.py)       [CacheReader.readinto], [CacheWriter.write].

    Python integers are [Z]; [bytes] objects are lists of [byte]; [str]
    objects are [string].  A raised exception is the [Raise] branch of
    [result]; a loop that need not terminate takes a fuel argument and answers
    [None] when the fuel is used up. *)

From Stdlib Require Import ZArith NArith List Sorted Lia Bool String Ascii.
From Stdlib Require Import Strings.Byte.
Import ListNotations.
Open Scope string_scope.
Open Scope list_scope.
Open Scope Z_scope.

(* ------------------------------------------------------------------ *)
(** * Python values, exceptions and results *)

Definition bytes := list byte.

(** The exceptions that the modelled code raises or lets through
    (cachecat/exceptions.py and the builtins involved). *)
Inductive exn : Type :=
| ZeroDivisionError
| IndexError
| ValueError
| KeyError (k : string)
| NotCachedException (token : string)
| AlreadyCachedException (token : string) (data : option bytes)
| HTTPError (status_code : Z)
| ConnectionError.

(** [except ValueError] and [except KeyError]: the two cachecat exceptions
    derive from [KeyError]. *)
Definition is_ValueError (e : exn) : bool :=
  match e with ValueError => true | _ => false end.

Definition is_KeyError (e : exn) : bool :=
  match e with
  | KeyError _ | NotCachedException _ | AlreadyCachedException _ _ => true
  | _ => false
  end.

Inductive result (A : Type) : Type :=
| Ok (a : A)
| Raise (e : exn).
Arguments Ok {A} a.
Arguments Raise {A} e.

Definition bind {A B} (m : result A) (k : A -> result B) : result B :=
  match m with
  | Ok a => k a
  | Raise e => Raise e
  end.

(** A computation that may also fail to terminate within its fuel. *)
Definition comp (A : Type) : Type := option (result A).

Definition cbind {A B} (m : comp A) (k : A -> comp B) : comp B :=
  match m with
  | None => None
  | Some (Raise e) => Some (Raise e)
  | Some (Ok a) => k a
  end.

Declare Scope comp_scope.
Delimit Scope comp_scope with comp.
Notation "x <- m ;; k" := (cbind m (fun x => k))
  (at level 61, m at next level, right associativity) : comp_scope.
Notation "' p <- m ;; k" := (cbind m (fun x => match x with p => k end))
  (at level 61, p pattern, m at next level, right associativity) : comp_scope.

(** [len(s)] of a [str], as a Python integer. *)
Definition str_len (s : string) : Z := Z.of_nat (String.length s).

(** [s[i]] for a [str]: negative indices count from the end, anything out
    of range raises [IndexError]. *)
Definition str_getitem (s : string) (i : Z) : result ascii :=
  let n := str_len s in
  let j := if i <? 0 then i + n else i in
  if (0 <=? j) && (j <? n)
  then match String.get (Z.to_nat j) s with
       | Some c => Ok c
       | None => Raise IndexError
       end
  else Raise IndexError.

(** [s[::-1]]. *)
Definition str_rev (s : string) : string :=
  string_of_list_ascii (rev (list_ascii_of_string s)).

(** [c * n] for a one-character string [c]. *)
Definition str_repeat (c : ascii) (n : Z) : string :=
  string_of_list_ascii (repeat c (Z.to_nat n)).

(** Truthiness of an optional [bytes] value: [None] and the empty [bytes]
    are falsy. *)
Definition truthy (data : option bytes) : bool :=
  match data with
  | Some (_ :: _) => true
  | _ => false
  end.

(** The [bytes] behind a truthy value. *)
Definition payload (data : option bytes) : bytes :=
  match data with
  | Some d => d
  | None => []
  end.

(* ------------------------------------------------------------------ *)
(** * cachecat/session.py *)

Module session.

(** The two entry points of the [shortuuid] package used by the module. *)
Class Shortuuid : Type := {
  uuid : string -> string;      (* shortuuid.uuid(name), name given *)
  get_alphabet : string         (* shortuuid.get_alphabet() *)
}.

(** The alphabet [shortuuid] ships with (57 characters). *)
Definition default_alphabet : string :=
  "23456789ABCDEFGHJKLMNPQRSTUVWXYZabcdefghijkmnopqrstuvwxyz".

(** [divmod(a, b)]: floor division, remainder with the sign of [b]. *)
Definition divmod (a b : Z) : result (Z * Z) :=
  if b =? 0 then Raise ZeroDivisionError else Ok (a / b, a mod b).

(** [int.bit_length()]. *)
Definition bit_length (x : Z) : Z :=
  if x =? 0 then 0 else Z.log2 (Z.abs x) + 1.

(** The [while number:] loop of [int_to_string]. *)
Fixpoint int_to_string_loop (fuel : nat) (number : Z) (alphabet output : string)
  : comp string :=
  if number =? 0 then Some (Ok output) else
  match fuel with
  | O => None
  | S fuel' =>
      match divmod number (str_len alphabet) with
      | Raise e => Some (Raise e)
      | Ok (number', digit) =>
          match str_getitem alphabet digit with
          | Raise e => Some (Raise e)
          | Ok c => int_to_string_loop fuel' number' alphabet (output ++ String c EmptyString)%string
          end
      end
  end.

(** Iterations granted to the loop: one per binary digit of [number].  With
    an alphabet of two characters or more a non-negative [number] needs no
    more; see [int_to_string_loop_diverges] for the inputs that exhaust it. *)
Definition loop_bound (number : Z) : nat := S (Z.to_nat (Z.log2 number)).

Definition int_to_string (number : Z) (alphabet : string) (padding : option Z)
  : comp string :=
  (output <- int_to_string_loop (loop_bound number) number alphabet EmptyString ;;
   match padding with
   | None => Some (Ok (str_rev output))
   | Some p =>
       if p =? 0 then Some (Ok (str_rev output)) else
       let remainder := Z.max (p - str_len output) 0 in
       match str_getitem alphabet 0 with
       | Raise e => Some (Raise e)
       | Ok c => Some (Ok (str_rev (output ++ str_repeat c remainder)%string))
       end
   end)%comp.

Record Session : Type := mkSession {
  port : Z;
  step : Z;
  max_step : Z
}.

(** [Session(port)] with the defaults [step=0], [max_step=0xffff]. *)
Definition init (port : Z) : Session := mkSession port 0 0xffff.

Definition set_step (self : Session) (s : Z) : Session :=
  mkSession (port self) s (max_step self).

Section WithShortuuid.
Context {su : Shortuuid}.

(** The [token] property. *)
Definition token (self : Session) : comp string :=
  match divmod (step self) (max_step self) with
  | Raise e => Some (Raise e)
  | Ok (_, st) =>
      let number := Z.shiftl (port self) (bit_length (max_step self)) + st in
      (s <- int_to_string number get_alphabet None ;; Some (Ok (uuid s)))%comp
  end.

(** [__next__]: the token is read first, then [step] is incremented. *)
Definition __next__ (self : Session) : comp ((Z * string) * Session) :=
  (tok <- token self ;;
   let st := step self in
   Some (Ok ((st, tok), set_step self (step self + 1))))%comp.
End WithShortuuid.

(** The specification of the encoding, in the words of the design: [w]
    expresses [n] in the alphabet, most significant digit first.  [ds] are
    the digits, each below the size of the alphabet, none leading that is
    zero, and [w] spells them with the characters of the alphabet. *)
Definition msd_first_value (base : Z) (ds : list Z) : Z :=
  fold_left (fun number d => number * base + d) ds 0.

(** Value of digits listed least significant first, the order in which the
    loop emits them. *)
Fixpoint lsd_first_value (base : Z) (ds : list Z) : Z :=
  match ds with
  | [] => 0
  | d :: rest => d + base * lsd_first_value base rest
  end.

Definition spell (alphabet : string) (ds : list Z) : string :=
  string_of_list_ascii
    (map (fun d => nth (Z.to_nat d) (list_ascii_of_string alphabet) Ascii.zero) ds).

Definition alphabet_numeral (alphabet : string) (n : Z) (w : string) : Prop :=
  exists ds : list Z,
    w = spell alphabet ds
    /\ msd_first_value (str_len alphabet) ds = n
    /\ Forall (fun d => 0 <= d < str_len alphabet) ds
    /\ hd 1 ds <> 0.

End session.

(* ------------------------------------------------------------------ *)
(** * The base64 codecs called by cachecat/cache.py

    [base64.urlsafe_b64encode] and [base64.urlsafe_b64decode] of the Python
    standard library, down to [binascii.b2a_base64] and the lenient
    [binascii.a2b_base64] they are built on. *)

Module base64.
Local Open Scope N_scope.

Definition PAD : byte := "="%byte.

Definition table_b2a_base64 : string :=
  "ABCDEFGHIJKLMNOPQRSTUVWXYZabcdefghijklmnopqrstuvwxyz0123456789+/".

(** [table_b2a_base64[n]] for a six-bit [n]. *)
Definition b2a (n : N) : byte :=
  nth (N.to_nat n) (list_byte_of_string table_b2a_base64) PAD.

(** [table_a2b_base64[c]]: the six-bit value of a character of the standard
    alphabet, [None] for every other character. *)
Definition a2b (c : byte) : option N :=
  let n := Byte.to_N c in
  if (65 <=? n) && (n <=? 90) then Some (n - 65)
  else if (97 <=? n) && (n <=? 122) then Some (n - 71)
  else if (48 <=? n) && (n <=? 57) then Some (n + 4)
  else if n =? 43 then Some 62
  else if n =? 47 then Some 63
  else None.

(** Storing an integer into an [unsigned char]. *)
Definition to_uchar (n : N) : byte :=
  match Byte.of_N (n mod 256) with
  | Some b => b
  | None => "000"%byte
  end.

(** [binascii.b2a_base64(data, newline=False)], three input bytes at a time:
    the six-bit groups are the ones the shift register of the C loop
    produces, the tail is padded with [=]. *)
Fixpoint b2a_base64 (data : bytes) : bytes :=
  match data with
  | [] => []
  | [x] =>
      let a := Byte.to_N x in
      [b2a (N.shiftr a 2); b2a (N.shiftl (N.land a 3) 4); PAD; PAD]
  | [x; y] =>
      let a := Byte.to_N x in
      let b := Byte.to_N y in
      [b2a (N.shiftr a 2);
       b2a (N.lor (N.shiftl (N.land a 3) 4) (N.shiftr b 4));
       b2a (N.shiftl (N.land b 15) 2); PAD]
  | x :: y :: z :: rest =>
      let a := Byte.to_N x in
      let b := Byte.to_N y in
      let c := Byte.to_N z in
      b2a (N.shiftr a 2)
      :: b2a (N.lor (N.shiftl (N.land a 3) 4) (N.shiftr b 4))
      :: b2a (N.lor (N.shiftl (N.land b 15) 2) (N.shiftr c 6))
      :: b2a (N.land c 63)
      :: b2a_base64 rest
  end.

(** [binascii.a2b_base64(data)] without [strict_mode]: characters outside
    the alphabet are skipped, a pad that completes a quad ends the input,
    and leftover characters raise [binascii.Error], a [ValueError]. *)
Fixpoint a2b_base64_loop (ascii_data : bytes) (quad_pos leftchar pads : N)
    (bin_data : bytes) : result bytes :=
  match ascii_data with
  | [] => if (quad_pos =? 0)%N then Ok bin_data else Raise ValueError
  | this_ch :: rest =>
      if Byte.eqb this_ch PAD then
        if (2 <=? quad_pos)%N then
          if (4 <=? quad_pos + (pads + 1))%N then Ok bin_data
          else a2b_base64_loop rest quad_pos leftchar (pads + 1)%N bin_data
        else a2b_base64_loop rest quad_pos leftchar pads bin_data
      else
        match a2b this_ch with
        | None => a2b_base64_loop rest quad_pos leftchar pads bin_data
        | Some v =>
            if (quad_pos =? 0)%N then
              a2b_base64_loop rest 1%N v 0%N bin_data
            else if (quad_pos =? 1)%N then
              a2b_base64_loop rest 2%N (N.land v 15) 0%N
                (bin_data ++ [to_uchar (N.lor (N.shiftl leftchar 2) (N.shiftr v 4))])
            else if (quad_pos =? 2)%N then
              a2b_base64_loop rest 3%N (N.land v 3) 0%N
                (bin_data ++ [to_uchar (N.lor (N.shiftl leftchar 4) (N.shiftr v 2))])
            else
              a2b_base64_loop rest 0%N 0%N 0%N
                (bin_data ++ [to_uchar (N.lor (N.shiftl leftchar 6) v)])
        end
  end.

Definition a2b_base64 (data : bytes) : result bytes :=
  a2b_base64_loop data 0%N 0%N 0%N [].

(** [bytes.maketrans(b"+/", b"-_")] and its inverse. *)
Definition urlsafe_encode_translation (c : byte) : byte :=
  if Byte.eqb c "+"%byte then "-"%byte
  else if Byte.eqb c "/"%byte then "_"%byte else c.

Definition urlsafe_decode_translation (c : byte) : byte :=
  if Byte.eqb c "-"%byte then "+"%byte
  else if Byte.eqb c "_"%byte then "/"%byte else c.

Definition urlsafe_b64encode (s : bytes) : bytes :=
  map urlsafe_encode_translation (b2a_base64 s).

(** [_bytes_from_decode_data] on a [str]: [s.encode("ascii")], a
    [ValueError] when a character is not ASCII. *)
Definition bytes_from_decode_data (s : string) : result bytes :=
  let b := list_byte_of_string s in
  if forallb (fun c => (Byte.to_N c <? 128)%N) b then Ok b else Raise ValueError.

Definition urlsafe_b64decode (s : string) : result bytes :=
  bind (bytes_from_decode_data s)
       (fun b => a2b_base64 (map urlsafe_decode_translation b)).

(** A character of the url-safe encoding as the decoder sees it. *)
Definition seen (c : byte) : byte :=
  urlsafe_decode_translation (urlsafe_encode_translation c).

(** The decoder reads the character [c] as the six bits [v]. *)
Definition reads (c : byte) (v : N) : bool :=
  negb (Byte.eqb (seen c) PAD)
  && match a2b (seen c) with Some v' => v' =? v | None => false end.

(** The four six-bit groups of three bytes. *)
Definition g1 (x : byte) : N := N.shiftr (Byte.to_N x) 2.
Definition g2 (x y : byte) : N :=
  N.lor (N.shiftl (N.land (Byte.to_N x) 3) 4) (N.shiftr (Byte.to_N y) 4).
Definition g3 (y z : byte) : N :=
  N.lor (N.shiftl (N.land (Byte.to_N y) 15) 2) (N.shiftr (Byte.to_N z) 6).
Definition g4 (z : byte) : N := N.land (Byte.to_N z) 63.

(** Every byte, for the facts checked by enumeration. *)
Definition all_bytes : list byte :=
  flat_map (fun n => match Byte.of_N n with Some b => [b] | None => [] end)
           (map N.of_nat (seq 0 256)).

End base64.

(* ------------------------------------------------------------------ *)
(** * Sequences and dictionaries *)

(** [l[lo:hi]]: negative bounds count from the end, all bounds are clamped. *)
Definition slice {A} (l : list A) (lo hi : Z) : list A :=
  let n := Z.of_nat (List.length l) in
  let clamp i := if i <? 0 then Z.max (i + n) 0 else Z.min i n in
  firstn (Z.to_nat (clamp hi - clamp lo)) (skipn (Z.to_nat (clamp lo)) l).

Definition str_slice (s : string) (lo hi : Z) : string :=
  string_of_list_ascii (slice (list_ascii_of_string s) lo hi).

(** [needle in hay] for two [str] objects. *)
Fixpoint str_in (needle hay : string) : bool :=
  String.prefix needle hay
  || match hay with
     | EmptyString => false
     | String _ rest => str_in needle rest
     end.

(** A [dict] with [str] keys, in insertion order. *)
Definition dict (V : Type) : Type := list (string * V).

(** [d[k] = v]. *)
Fixpoint dict_setitem {V} (d : dict V) (k : string) (v : V) : dict V :=
  match d with
  | [] => [(k, v)]
  | (k', v') :: rest =>
      if String.eqb k' k then (k', v) :: rest
      else (k', v') :: dict_setitem rest k v
  end.

(** [dict(pairs)]: a later pair overrides an earlier one with the same key. *)
Definition dict_of_pairs {V} (pairs : list (string * V)) : dict V :=
  fold_left (fun d kv => dict_setitem d (fst kv) (snd kv)) pairs [].

(** [d.get(k)]. *)
Fixpoint dict_get {V} (d : dict V) (k : string) : option V :=
  match d with
  | [] => None
  | (k', v) :: rest => if String.eqb k' k then Some v else dict_get rest k
  end.

(* ------------------------------------------------------------------ *)
(** * cachecat/cache.py *)

Module cache.

(** What the module reads of a [requests] response.  [x_cache_status] is
    [r.headers.get("X-Cache-Status")], [None] when the header is absent. *)
Record Response : Type := mkResponse {
  status_code : Z;
  x_cache_status : option string;
  text : string
}.

(** A value of the query dictionary handed to [urlencode]. *)
Inductive qvalue : Type :=
| QStr (s : string)
| QBytes (b : bytes).

(** The [re], [urllib.parse] and [html] functions of [_extract]. *)
Class UrlLib : Type := {
  re_finditer : string -> string -> list (Z * Z);  (* span of each match *)
  urlparse_query : string -> option string;        (* urlparse(s).query, None: ValueError *)
  unescape : string -> string;
  parse_qsl : string -> list (string * string)
}.

(** [requests.get] on the target with the rewritten query (the url is
    [self.url._replace(query=urlencode(d)).geturl()]), headers and proxies
    fixed; [Net] is the state of everything behind the HTTP client. *)
Class Transport (Net : Type) : Type := {
  requests_get : string -> dict qvalue -> option string -> Net
                 -> result Response * Net
}.

(** [url] is the target without its query, [url_query] the query of the
    parsed url. *)
Record Cache : Type := mkCache {
  url : string;
  url_query : string;
  key : string;
  slot : string;
  proxy : option string
}.

(** [Response.raise_for_status]. *)
Definition raise_for_status (r : Response) : result unit :=
  if (400 <=? status_code r) && (status_code r <? 600)
  then Raise (HTTPError (status_code r)) else Ok tt.

(** ["HIT" in r.headers.get("X-Cache-Status", "MISS")]. *)
Definition is_hit (r : Response) : bool :=
  str_in "HIT" (match x_cache_status r with Some v => v | None => "MISS" end).

(** [t[k]]. *)
Definition dict_getitem {V} (t : dict V) (k : string) : result V :=
  match dict_get t k with
  | Some v => Ok v
  | None => Raise (KeyError k)
  end.

Section WithUrlLib.
Context {lib : UrlLib}.

(** The body of the [try] block of [_extract] for one match. *)
Definition parse_snip (self : Cache) (snip : string) : result bytes :=
  match urlparse_query snip with
  | None => Raise ValueError
  | Some u_query =>
      let t := dict_of_pairs (parse_qsl (unescape u_query)) in
      bind (dict_getitem t (slot self)) (fun m =>
      base64.urlsafe_b64decode m)
  end.

(** The [for match in re.finditer(...)] loop: the first match that parses
    is returned; [ValueError] and [KeyError] move on to the next match;
    falling off the loop returns [None]. *)
Fixpoint extract_loop (self : Cache) (text : string) (matches : list (Z * Z))
  : result (option bytes) :=
  match matches with
  | [] => Ok None
  | (a, b) :: rest =>
      let snip := str_slice text (a + 35) (b - 7) in
      match parse_snip self snip with
      | Ok data => Ok (Some data)
      | Raise e =>
          if is_ValueError e || is_KeyError e
          then extract_loop self text rest
          else Raise e
      end
  end.

Definition _extract (self : Cache) (k : string) (response : Response)
  : result (option bytes) :=
  extract_loop self (text response)
    (re_finditer ("No results for (.*)" ++ k ++ "(.*)</code>")%string
                 (text response)).

(** [__getitem__] once the response is in. *)
Definition getitem_response (self : Cache) (k : string) (r : Response)
  : result (option bytes) :=
  bind (raise_for_status r) (fun _ =>
  if negb (is_hit r) then Raise (NotCachedException k)
  else _extract self k r).

(** [__setitem__] once the response is in. *)
Definition setitem_response (self : Cache) (k : string) (r : Response)
  : result unit :=
  bind (raise_for_status r) (fun _ =>
  if is_hit r
  then bind (_extract self k r) (fun data => Raise (AlreadyCachedException k data))
  else Ok tt).

(** The url arguments of a [get]: the parsed query with the token under
    the keyed argument. *)
Definition getitem_query (self : Cache) (k : string) : dict qvalue :=
  let d := dict_of_pairs
             (map (fun kv => (fst kv, QStr (snd kv))) (parse_qsl (url_query self))) in
  dict_setitem d (key self) (QStr k).

(** The url arguments of a [set]: the token, and the encoded data under
    the argument the page reflects. *)
Definition setitem_query (self : Cache) (k : string) (value : bytes) : dict qvalue :=
  let d := dict_of_pairs
             (map (fun kv => (fst kv, QStr (snd kv))) (parse_qsl (url_query self))) in
  let d := dict_setitem d (key self) (QStr k) in
  dict_setitem d (slot self) (QBytes (base64.urlsafe_b64encode value)).

Section WithTransport.
Context {Net : Type} {tr : Transport Net}.

Definition __getitem__ (self : Cache) (k : string) (net : Net)
  : result (option bytes) * Net :=
  let (r, net') :=
    requests_get (url self) (getitem_query self k) (proxy self) net in
  (bind r (getitem_response self k), net').

Definition __setitem__ (self : Cache) (k : string) (value : bytes) (net : Net)
  : result unit * Net :=
  let (r, net') :=
    requests_get (url self) (setitem_query self k value) (proxy self) net in
  (bind r (setitem_response self k), net').
End WithTransport.

(** The ways one match can fail to give a payload: its url does not
    parse, the query lacks the reflected argument, or the argument is not
    base64. *)
Inductive snip_fails (self : Cache) (snip : string) : Prop :=
| malformed_url :
    urlparse_query snip = None -> snip_fails self snip
| missing_parameter (q : string) :
    urlparse_query snip = Some q ->
    dict_get (dict_of_pairs (parse_qsl (unescape q))) (slot self) = None ->
    snip_fails self snip
| bad_base64 (q m : string) :
    urlparse_query snip = Some q ->
    dict_get (dict_of_pairs (parse_qsl (unescape q))) (slot self) = Some m ->
    base64.urlsafe_b64decode m = Raise ValueError ->
    snip_fails self snip.

(** The body of [r] holds no parseable reflected payload for [k]: the
    pattern has no match, or every match fails. *)
Definition no_payload (self : Cache) (k : string) (r : Response) : Prop :=
  Forall (fun span => snip_fails self
                        (str_slice (text r) (fst span + 35) (snd span - 7)))
         (re_finditer ("No results for (.*)" ++ k ++ "(.*)</code>")%string
                      (text r)).

(** The body of [r] reflects the data argument [m]: the first match of
    the pattern parses to a query that holds [m] under the reflected
    argument. *)
Definition reflects (self : Cache) (k : string) (r : Response) (m : string) : Prop :=
  exists (a b : Z) (rest : list (Z * Z)) (q : string),
    re_finditer ("No results for (.*)" ++ k ++ "(.*)</code>")%string (text r)
    = (a, b) :: rest
    /\ urlparse_query (str_slice (text r) (a + 35) (b - 7)) = Some q
    /\ dict_get (dict_of_pairs (parse_qsl (unescape q))) (slot self) = Some m.
End WithUrlLib.

End cache.

(* ------------------------------------------------------------------ *)
(** * cachecat/io.py *)

Module io.
Import session.

Definition DEFAULT_CHUNK_SIZE : Z := 1024.

(** [io.DEFAULT_BUFFER_SIZE] of the standard library. *)
Definition DEFAULT_BUFFER_SIZE : Z := 8192.

(** The two operations the reader and the writer perform on their [cache]
    object, over the state [C] that object stands for. *)
Class CacheLike (C : Type) : Type := {
  cache_getitem : string -> C -> result (option bytes) * C;  (* cache[token] *)
  cache_setitem : string -> bytes -> C -> result unit * C    (* cache[token] = chunk *)
}.

(** The destination handed to [readinto]. *)
Inductive buffer : Type :=
| Bytearray (content : bytes)
| Memoryview (content : bytes)
| OtherObject.

(** A subscribed callable, known by its identity. *)
Definition consumer : Type := nat.

(** What a run leaves behind: the records handed to [log], and the calls
    made to the subscribed consumers. *)
Inductive event : Type :=
| ReaderChecking (step : Z) (token : string)
| ReadData (step : Z) (data : bytes)
| MemoryviewTooSmall (len_b len_data : Z)
| NotCached (step : Z)
| WriterChecking (step : Z) (token : string)
| WroteData (step : Z) (chunk : bytes)
| WriterEncountered (step : Z) (data : bytes)
| Call (func : consumer) (data : bytes).

(** The objects a reader and a writer share: the cache, the one [Session]
    both iterate, and the run's events, oldest first. *)
Record world (C : Type) : Type := mkWorld {
  the_cache : C;
  the_session : Session;
  events : list event
}.
Arguments mkWorld {C} _ _ _.
Arguments the_cache {C} _.
Arguments the_session {C} _.
Arguments events {C} _.

Definition len (data : bytes) : Z := Z.of_nat (List.length data).

(** The bytes a destination holds. *)
Definition content_of (b : buffer) : bytes :=
  match b with
  | Bytearray content | Memoryview content => content
  | OtherObject => []
  end.

Record CacheWriter : Type := mkCacheWriter {
  chunk_size : Z;
  _consumers : list consumer
}.

(** [subscribe] and [unsubscribe]. *)
Definition subscribe (self : CacheWriter) (func : consumer) : CacheWriter :=
  if existsb (Nat.eqb func) (_consumers self) then self
  else mkCacheWriter (chunk_size self) (_consumers self ++ [func]).

Fixpoint list_remove (func : consumer) (l : list consumer) : list consumer :=
  match l with
  | [] => []
  | f :: rest => if Nat.eqb f func then rest else f :: list_remove func rest
  end.

Definition unsubscribe (self : CacheWriter) (func : consumer) : CacheWriter :=
  mkCacheWriter (chunk_size self) (list_remove func (_consumers self)).

(** [range(0, stop, step)] for [stop >= 0]. *)
Definition range0 (stop step : Z) : result (list Z) :=
  if step =? 0 then Raise ValueError
  else if step <? 0 then Ok []
  else Ok (map (fun k => Z.of_nat k * step)
               (seq 0 (Z.to_nat ((stop + step - 1) / step)))).

(** The chunks [data[i:i+chunk_size]] of [write], in order. *)
Definition chunks (chunk_size : Z) (data : bytes) : result (list bytes) :=
  bind (range0 (len data) chunk_size)
       (fun idx => Ok (map (fun i => slice data i (i + chunk_size)) idx)).

(** [n] consecutive pieces of [l], of [c] elements each while [l] lasts. *)
Fixpoint chop {A} (n c : nat) (l : list A) : list (list A) :=
  match n with
  | O => []
  | S n' => firstn c l :: chop n' c (skipn c l)
  end.

(** The sizes of those pieces, for a list of [size] elements. *)
Fixpoint chop_sizes (n c size : nat) : list nat :=
  match n with
  | O => []
  | S n' => Nat.min c size :: chop_sizes n' c (size - c)
  end.

Section WithCache.
Context {su : Shortuuid} {C : Type} {cl : CacheLike C}.

(** [CacheReader.readinto(b)]: one round of the [for] loop per unit of
    fuel.  The answer carries the buffer and the shared objects as the
    call leaves them, whether it returns or raises. *)
Fixpoint readinto (fuel : nat) (b : buffer) (w : world C)
  : option (result Z * buffer * world C) :=
  match fuel with
  | O => None
  | S fuel' =>
      match __next__ (the_session w) with
      | None => None
      | Some (Raise e) => Some (Raise e, b, w)
      | Some (Ok ((step, token), sess)) =>
          let ev := events w ++ [ReaderChecking step token] in
          let (r, c) := cache_getitem token (the_cache w) in
          match r with
          | Ok data =>
              if truthy data then
                let d := payload data in
                let ev := ev ++ [ReadData step d] in
                match b with
                | Bytearray _ =>
                    Some (Ok (len d), Bytearray d, mkWorld c sess ev)
                | Memoryview content =>
                    if len d >? len content then
                      Some (Ok 0, b,
                            mkWorld c (set_step sess (session.step sess - 1))
                                    (ev ++ [MemoryviewTooSmall (len content) (len d)]))
                    else
                      let l := len d in
                      Some (Ok (len d),
                            Memoryview (d ++ skipn (Z.to_nat l) content),
                            mkWorld c sess ev)
                | OtherObject => Some (Raise ValueError, b, mkWorld c sess ev)
                end
              else readinto fuel' b (mkWorld c sess ev)
          | Raise (NotCachedException _) =>
              Some (Ok 0, b, mkWorld c sess (ev ++ [NotCached step]))
          | Raise e => Some (Raise e, b, mkWorld c sess ev)
          end
      end
  end.

(** The calls [func(e.data)] for every subscribed consumer, in order. *)
Definition notify (self : CacheWriter) (data : bytes) : list event :=
  map (fun func => Call func data) (_consumers self).

(** The inner [for step, token in self.session] loop of [write] for one
    chunk: it ends at the first [set] that is accepted. *)
Fixpoint write_chunk (fuel : nat) (self : CacheWriter) (chunk : bytes) (w : world C)
  : option (result unit * world C) :=
  match fuel with
  | O => None
  | S fuel' =>
      match __next__ (the_session w) with
      | None => None
      | Some (Raise e) => Some (Raise e, w)
      | Some (Ok ((step, token), sess)) =>
          let ev := events w ++ [WriterChecking step token] in
          let (r, c) := cache_setitem token chunk (the_cache w) in
          match r with
          | Ok _ => Some (Ok tt, mkWorld c sess (ev ++ [WroteData step chunk]))
          | Raise (AlreadyCachedException _ data) =>
              if truthy data then
                let d := payload data in
                write_chunk fuel' self chunk
                  (mkWorld c sess (ev ++ WriterEncountered step d :: notify self d))
              else write_chunk fuel' self chunk (mkWorld c sess ev)
          | Raise e => Some (Raise e, mkWorld c sess ev)
          end
      end
  end.

(** The outer loop of [write] over the chunks. *)
Fixpoint write_chunks (fuel : nat) (self : CacheWriter) (cs : list bytes) (w : world C)
  : option (result unit * world C) :=
  match cs with
  | [] => Some (Ok tt, w)
  | chunk :: rest =>
      match write_chunk fuel self chunk w with
      | None => None
      | Some (Raise e, w') => Some (Raise e, w')
      | Some (Ok _, w') => write_chunks fuel self rest w'
      end
  end.

(** [CacheWriter.write(data)]; every chunk's loop is granted [fuel] rounds. *)
Definition write (fuel : nat) (self : CacheWriter) (data : bytes) (w : world C)
  : option (result Z * world C) :=
  match chunks (chunk_size self) data with
  | Raise e => Some (Raise e, w)
  | Ok cs =>
      match write_chunks fuel self cs w with
      | None => None
      | Some (Raise e, w') => Some (Raise e, w')
      | Some (Ok _, w') => Some (Ok (len data), w')
      end
  end.
(** [RawIOBase.read(size)] for [size >= 0], the caller that hands
    [readinto] a bytearray: [b = bytearray(size)], [n = self.readinto(b)],
    [del b[n:]], and the bytes of [b] are returned. *)
Definition read (fuel : nat) (size : Z) (w : world C)
  : option (result bytes * world C) :=
  match readinto fuel (Bytearray (repeat "000"%byte (Z.to_nat size))) w with
  | None => None
  | Some (Raise e, _, w') => Some (Raise e, w')
  | Some (Ok n, b, w') => Some (Ok (firstn (Z.to_nat n) (content_of b)), w')
  end.

(** [RawIOBase.readall()], which [reader.read()] runs: [read] is called,
    one buffer at a time, until it returns nothing; [res] is what has been
    gathered.  One call of [read] per unit of [rounds]. *)
Fixpoint readall (rounds fuel : nat) (res : bytes) (w : world C)
  : option (result bytes * world C) :=
  match rounds with
  | O => None
  | S rounds' =>
      match read fuel DEFAULT_BUFFER_SIZE w with
      | None => None
      | Some (Raise e, w') => Some (Raise e, w')
      | Some (Ok data, w') =>
          match data with
          | [] => Some (Ok res, w')
          | _ :: _ => readall rounds' fuel (res ++ data) w'
          end
      end
  end.
End WithCache.

(** The number of tokens a run took from the session. *)
Fixpoint checks (ev : list event) : Z :=
  match ev with
  | [] => 0
  | (ReaderChecking _ _ | WriterChecking _ _) :: rest => 1 + checks rest
  | _ :: rest => checks rest
  end.

(** The number of times a run stepped the session back. *)
Fixpoint rewinds (ev : list event) : Z :=
  match ev with
  | [] => 0
  | MemoryviewTooSmall _ _ :: rest => 1 + rewinds rest
  | _ :: rest => rewinds rest
  end.

(** The payloads a run read, oldest first. *)
Fixpoint read_data (ev : list event) : list bytes :=
  match ev with
  | [] => []
  | ReadData _ data :: rest => data :: read_data rest
  | _ :: rest => read_data rest
  end.

(** The payloads a writer came across, oldest first. *)
Fixpoint encountered (ev : list event) : list bytes :=
  match ev with
  | [] => []
  | WriterEncountered _ data :: rest => data :: encountered rest
  | _ :: rest => encountered rest
  end.

(** The chunks a run wrote, with the step of each, oldest first. *)
Fixpoint wrote (ev : list event) : list (Z * bytes) :=
  match ev with
  | [] => []
  | WroteData step chunk :: rest => (step, chunk) :: wrote rest
  | _ :: rest => wrote rest
  end.

(** The calls a run made to the consumers, oldest first. *)
Fixpoint calls (ev : list event) : list (consumer * bytes) :=
  match ev with
  | [] => []
  | Call func data :: rest => (func, data) :: calls rest
  | _ :: rest => calls rest
  end.

(** One [self.cache[token] = chunk] of a writer: the step and the token it
    was made at, the chunk it sent, and what the cache answered. *)
Record set_call : Type := mkSetCall {
  call_step : Z;
  call_token : string;
  call_chunk : bytes;
  call_answer : result unit
}.

(** The sets the cache took. *)
Definition accepted (l : list set_call) : list set_call :=
  filter (fun x => match call_answer x with Ok _ => true | Raise _ => false end) l.

(** [sets_made s c l c']: starting from the session [s] and the cache [c],
    the sets [l] are what the cache was asked, one after the other and
    nothing else: each at the step and token the session yields next, each
    answered as recorded on the cache the one before left, the last one
    leaving [c']. *)
Fixpoint sets_made {su : Shortuuid} {C : Type} {cl : CacheLike C}
    (s : Session) (c : C) (l : list set_call) (c' : C) {struct l} : Prop :=
  match l with
  | [] => c' = c
  | x :: rest =>
      call_step x = session.step s
      /\ token s = Some (Ok (call_token x))
      /\ exists c1 : C,
           cache_setitem (call_token x) (call_chunk x) c = (call_answer x, c1)
           /\ sets_made (set_step s (session.step s + 1)) c1 rest c'
  end.

End io.

(* ------------------------------------------------------------------ *)
(** * The HTTP-backed cache as the reader's and writer's [cache] object *)

#[export] Instance Cache_CacheLike {lib : cache.UrlLib} {Net : Type}
    {tr : cache.Transport Net} (self : cache.Cache) : io.CacheLike Net := {|
  io.cache_getitem := cache.__getitem__ self;
  io.cache_setitem := cache.__setitem__ self
|}.

(* ------------------------------------------------------------------ *)
(** * cachecat/__main__.py *)

Module main.

(** How the target check of [run] ends: the assertion holds, the assertion
    fails on what was read back, or one of the two cache accesses raises. *)
Inductive check_result : Type :=
| CheckPassed
| AssertionError (m : option bytes)
| CheckRaised (e : exn).

(** [m == data] for what [cache[token]] returned. *)
Fixpoint bytes_eqb (a b : bytes) : bool :=
  match a, b with
  | [], [] => true
  | x :: a', y :: b' => Byte.eqb x y && bytes_eqb a' b'
  | _, _ => false
  end.

Definition returned_eqb (m : option bytes) (data : bytes) : bool :=
  match m with
  | Some d => bytes_eqb d data
  | None => false
  end.

(** The [if check:] block of [run], on the token and the data it drew:
    [cache[token] = data; m = cache[token]; assert m == data]. *)
Definition check {C : Type} {cl : io.CacheLike C} (token : string) (data : bytes)
    (c : C) : check_result * C :=
  let (stored, c1) := io.cache_setitem token data c in
  match stored with
  | Raise e => (CheckRaised e, c1)
  | Ok _ =>
      let (got, c2) := io.cache_getitem token c1 in
      match got with
      | Raise e => (CheckRaised e, c2)
      | Ok m =>
          if returned_eqb m data then (CheckPassed, c2)
          else (AssertionError m, c2)
      end
  end.

End main.

(* ------------------------------------------------------------------ *)
(** * In-memory stand-ins on which the definitions are run *)

Module stub.

(** A [shortuuid] whose [uuid] keeps the name it is given. *)
Definition shortuuid : session.Shortuuid := {|
  session.uuid := fun name => name;
  session.get_alphabet := session.default_alphabet
|}.

(** A cache held in a dictionary, with the contract of the remote one: a
    [get] of an absent token caches an empty page under it, a [set] of a
    present token collides with what is there. *)
Definition store : Type := dict (option bytes).

Definition store_getitem (token : string) (s : store) : result (option bytes) * store :=
  match dict_get s token with
  | Some v => (Ok v, s)
  | None => (Raise (NotCachedException token), dict_setitem s token None)
  end.

Definition store_setitem (token : string) (value : bytes) (s : store)
  : result unit * store :=
  match dict_get s token with
  | Some v => (Raise (AlreadyCachedException token v), s)
  | None => (Ok tt, dict_setitem s token (Some value))
  end.

Definition store_cache : io.CacheLike store := {|
  io.cache_getitem := store_getitem;
  io.cache_setitem := store_setitem
|}.

(** A backend that takes every [set] and records it, and holds nothing. *)
Definition recorder : io.CacheLike (list (string * bytes)) := {|
  io.cache_getitem := fun token s => (Raise (NotCachedException token), s);
  io.cache_setitem := fun token value s => (Ok tt, s ++ [(token, value)])
|}.

(** Channel 7 from its first step, over a given cache. *)
Definition channel7 {C : Type} (c : C) : io.world C :=
  io.mkWorld c (session.init 7) [].

(** The first two tokens of channel 7. *)
Definition token0 : string := "4VDJ".
Definition token1 : string := "4VDK".

Definition peer_data : bytes := list_byte_of_string "peer".

(** An HTTP client that serves a fixed list of responses, one per request. *)
Definition scripted : cache.Transport (list cache.Response) := {|
  cache.requests_get := fun _ _ _ net =>
    match net with
    | [] => (Raise ConnectionError, [])
    | r :: rest => (Ok r, rest)
    end
|}.

(** Index of the first occurrence of [c] in [s], if any. *)
Fixpoint find_char (c : ascii) (s : string) : option nat :=
  match s with
  | EmptyString => None
  | String x rest =>
      if Ascii.eqb x c then Some O else option_map S (find_char c rest)
  end.

(** [s.split(c)]. *)
Fixpoint split_on (c : ascii) (s : string) : list string :=
  match s with
  | EmptyString => [EmptyString]
  | String x rest =>
      if Ascii.eqb x c then EmptyString :: split_on c rest
      else match split_on c rest with
           | [] => [String x EmptyString]
           | h :: t => String x h :: t
           end
  end.

Definition key_value (field : string) : list (string * string) :=
  match find_char "="%char field with
  | None => []
  | Some i =>
      let v := String.substring (S i) (String.length field - S i) field in
      if String.eqb v EmptyString then [] else [(String.substring 0 i field, v)]
  end.

(** A small url library: one match spanning a body that opens with
    [No results for] and closes with [</code>]; the query is what follows
    the first [?], and a [[] in the url is refused; fields are split at [&]
    and [=], blank values dropped; no entity is unescaped. *)
Definition urllib : cache.UrlLib := {|
  cache.re_finditer := fun _ body =>
    if String.prefix "No results for " body
       && String.eqb (str_slice body (-7) (str_len body)) "</code>"
    then [(0, str_len body)] else [];
  cache.urlparse_query := fun u =>
    if str_in "[" u then None
    else match find_char "?"%char u with
         | None => Some EmptyString
         | Some i => Some (String.substring (S i) (String.length u - S i) u)
         end;
  cache.unescape := fun s => s;
  cache.parse_qsl := fun q => flat_map key_value (split_on "&"%char q)
|}.

Definition target : cache.Cache :=
  cache.mkCache "https://webcachetunneling.com/" EmptyString "q" "p" None.

(** A token, a message, and the page that reflects the request storing the
    message under the token. *)
Definition trigger_key : string := "26hqBz7TUL3ikYTGCFBp".

Definition trigger : bytes := list_byte_of_string "The crow flies at midnight!".

Definition reflected_page : string :=
  "No results for <code class=queries>https://webcachetunneling.com/?q=26hqBz7TUL3ikYTGCFBp&p=VGhlIGNyb3cgZmxpZXMgYXQgbWlkbmlnaHQh</code>".

Definition fresh_page : cache.Response :=
  cache.mkResponse 200 (Some "MISS") reflected_page.

Definition cached_page : cache.Response :=
  cache.mkResponse 200 (Some "HIT") reflected_page.

(** A cached page that reflects nothing. *)
Definition blank_page : cache.Response :=
  cache.mkResponse 200 (Some "HIT") "<html><body>Search</body></html>".

(** A cached page reflecting a request that carried the token alone. *)
Definition probed_page : cache.Response :=
  cache.mkResponse 200 (Some "HIT")
    "No results for <code class=queries>https://webcachetunneling.com/?q=26hqBz7TUL3ikYTGCFBp</code>".

(** The pages of the second token of channel 7: the cached page of a peer
    that stored [peer_data] there, the fresh page of a probe, and the fresh
    page of a [set] of the one byte [A]. *)
Definition peer_page : cache.Response :=
  cache.mkResponse 200 (Some "HIT")
    "No results for <code class=queries>https://webcachetunneling.com/?q=4VDK&p=cGVlcg==</code>".

Definition unprobed_page : cache.Response :=
  cache.mkResponse 200 (Some "MISS")
    "No results for <code class=queries>https://webcachetunneling.com/?q=4VDK</code>".

Definition stored_page : cache.Response :=
  cache.mkResponse 200 (Some "MISS")
    "No results for <code class=queries>https://webcachetunneling.com/?q=4VDK&p=QQ==</code>".

(** The spans of the lines that [keep] retains, [offset] being where the
    first of [lines] starts in the body. *)
Fixpoint line_spans (keep : string -> bool) (offset : Z) (lines : list string)
  : list (Z * Z) :=
  match lines with
  | [] => []
  | l :: rest =>
      (if keep l then [(offset, offset + str_len l)] else [])
      ++ line_spans keep (offset + str_len l + 1) rest
  end.

(** The url library with a [finditer] that works line by line, as [.] does
    not cross a line end: a match spans a line that opens with
    [No results for], holds the key of the pattern and closes with
    [</code>]. *)
Definition by_line : cache.UrlLib := {|
  cache.re_finditer := fun pattern body =>
    let k := str_slice pattern 19 (str_len pattern - 11) in
    line_spans (fun l => String.prefix "No results for " l
                         && str_in k l
                         && String.eqb (str_slice l (-7) (str_len l)) "</code>")
               0 (split_on "010"%char body);
  cache.urlparse_query := @cache.urlparse_query urllib;
  cache.unescape := @cache.unescape urllib;
  cache.parse_qsl := @cache.parse_qsl urllib
|}.

(** A cached page of four reflections of [trigger_key], one per line: the
    token alone, a url that does not parse, [trigger], and [peer_data]. *)
Definition listing_page : cache.Response :=
  cache.mkResponse 200 (Some "HIT")
    (cache.text probed_page
     ++ String "010"%char
          "No results for <code class=queries>https://[webcachetunneling.com/?q=26hqBz7TUL3ikYTGCFBp&p=cGVlcg==</code>"
     ++ String "010"%char reflected_page
     ++ String "010"%char
          "No results for <code class=queries>https://webcachetunneling.com/?q=26hqBz7TUL3ikYTGCFBp&p=cGVlcg==</code>")%string.

End stub.

(* ================================================================== *)
(** * Facts *)

(* ------------------------------------------------------------------ *)
(** * Strings as lists of characters *)

Lemma list_ascii_of_string_app (a b : string) :
  list_ascii_of_string (a ++ b)%string
  = list_ascii_of_string a ++ list_ascii_of_string b.
Proof.
  induction a as [|c a IH]; simpl; [reflexivity | now rewrite IH].
Qed.

Lemma string_of_list_ascii_app (a b : list ascii) :
  string_of_list_ascii (a ++ b)
  = (string_of_list_ascii a ++ string_of_list_ascii b)%string.
Proof.
  induction a as [|c a IH]; simpl; [reflexivity | now rewrite IH].
Qed.

Lemma append_empty_r (s : string) : (s ++ EmptyString)%string = s.
Proof. induction s as [|c s IH]; simpl; [reflexivity | now rewrite IH]. Qed.

Lemma append_assoc (a b c : string) :
  ((a ++ b) ++ c)%string = (a ++ (b ++ c))%string.
Proof. induction a as [|x a IH]; simpl; [reflexivity | now rewrite IH]. Qed.

Lemma length_list_ascii_of_string (s : string) :
  List.length (list_ascii_of_string s) = String.length s.
Proof.
  induction s as [|c s IH]; simpl; [reflexivity | now rewrite IH].
Qed.

Lemma string_get_nth (s : string) (i : nat) :
  (i < String.length s)%nat ->
  String.get i s = Some (nth i (list_ascii_of_string s) Ascii.zero).
Proof.
  revert i; induction s as [|c s IH]; simpl; intros i Hi; [lia|].
  destruct i as [|i]; [reflexivity|]. apply IH; lia.
Qed.

Lemma str_getitem_in_range (s : string) (i : Z) :
  0 <= i < str_len s ->
  str_getitem s i = Ok (nth (Z.to_nat i) (list_ascii_of_string s) Ascii.zero).
Proof.
  intros Hi. unfold str_getitem, str_len in *.
  destruct (i <? 0) eqn:Hneg; [apply Z.ltb_lt in Hneg; lia|].
  replace ((0 <=? i) && (i <? Z.of_nat (String.length s))) with true
    by (symmetry; apply andb_true_iff; split;
        [apply Z.leb_le | apply Z.ltb_lt]; lia).
  rewrite string_get_nth by lia. reflexivity.
Qed.

(* ------------------------------------------------------------------ *)
(** * session: the encoding loop *)

Module session_facts.
Import session.

Lemma msd_first_value_rev (base : Z) (ds : list Z) :
  msd_first_value base (rev ds) = lsd_first_value base ds.
Proof.
  unfold msd_first_value. rewrite <- fold_left_rev_right, rev_involutive.
  induction ds as [|d ds IH]; simpl; [reflexivity|]. rewrite IH. lia.
Qed.

Lemma spell_app (alphabet : string) (ds es : list Z) :
  spell alphabet (ds ++ es) = (spell alphabet ds ++ spell alphabet es)%string.
Proof. unfold spell. now rewrite map_app, string_of_list_ascii_app. Qed.

Lemma str_rev_spell (alphabet : string) (ds : list Z) :
  str_rev (spell alphabet ds) = spell alphabet (rev ds).
Proof.
  unfold str_rev, spell.
  now rewrite list_ascii_of_string_of_list_ascii, map_rev.
Qed.

Lemma log2_div_lt (n base : Z) (fuel : nat) :
  0 < n -> 2 <= base -> Z.log2 n < Z.of_nat (S fuel) ->
  n / base = 0 \/ Z.log2 (n / base) < Z.of_nat fuel.
Proof.
  intros Hn Hb Hlog.
  assert (Hq : 0 <= n / base) by (apply Z.div_pos; lia).
  destruct (Z.eq_dec (n / base) 0) as [E|E]; [now left | right].
  apply Z.log2_lt_pow2; [lia|].
  apply Z.log2_lt_pow2 in Hlog; [|lia].
  rewrite Nat2Z.inj_succ, Z.pow_succ_r in Hlog by lia.
  apply Z.div_lt_upper_bound; [lia|].
  assert (0 < 2 ^ Z.of_nat fuel) by (apply Z.pow_pos_nonneg; lia).
  nia.
Qed.

(** With an alphabet of at least two characters the loop ends within one
    round per binary digit, having appended the digits of [number], least
    significant first. *)
Lemma int_to_string_loop_spec (alphabet : string) :
  2 <= str_len alphabet ->
  forall (fuel : nat) (number : Z) (output : string),
    0 <= number ->
    number = 0 \/ Z.log2 number < Z.of_nat fuel ->
    exists ds : list Z,
      int_to_string_loop fuel number alphabet output
      = Some (Ok (output ++ spell alphabet ds)%string)
      /\ lsd_first_value (str_len alphabet) ds = number
      /\ Forall (fun d => 0 <= d < str_len alphabet) ds
      /\ last ds 1 <> 0.
Proof.
  intros Hbase fuel.
  induction fuel as [|fuel IH]; intros number output Hn Hfuel.
  - assert (number = 0) as ->.
    { destruct Hfuel as [?|H]; [assumption|].
      pose proof (Z.log2_nonneg number). simpl in H. lia. }
    exists []. simpl.
    repeat split; [| constructor | lia].
    unfold spell. simpl. now rewrite append_empty_r.
  - simpl. destruct (number =? 0) eqn:Hz.
    + apply Z.eqb_eq in Hz. subst number. exists []. simpl.
      repeat split; [| constructor | lia].
      unfold spell. simpl. now rewrite append_empty_r.
    + apply Z.eqb_neq in Hz.
      unfold divmod.
      destruct (str_len alphabet =? 0) eqn:Hl; [apply Z.eqb_eq in Hl; lia|].
      assert (Hd : 0 <= number mod str_len alphabet < str_len alphabet)
        by (apply Z.mod_pos_bound; lia).
      rewrite str_getitem_in_range by exact Hd.
      assert (Hq : 0 <= number / str_len alphabet) by (apply Z.div_pos; lia).
      destruct Hfuel as [?|Hfuel]; [lia|].
      destruct (IH (number / str_len alphabet)
                   (output ++ String
                      (nth (Z.to_nat (number mod str_len alphabet))
                           (list_ascii_of_string alphabet) Ascii.zero)
                      EmptyString)%string
                   Hq (log2_div_lt number (str_len alphabet) fuel
                         ltac:(lia) Hbase Hfuel))
        as (ds & Hrun & Hval & Hrange & Hlast).
      exists (number mod str_len alphabet :: ds).
      split; [|split; [|split]].
      * rewrite Hrun. f_equal. f_equal.
        change (number mod str_len alphabet :: ds)
          with ([number mod str_len alphabet] ++ ds).
        rewrite spell_app, <- append_assoc. reflexivity.
      * simpl. rewrite Hval.
        pose proof (Z.div_mod number (str_len alphabet)). lia.
      * constructor; assumption.
      * destruct ds as [|d ds'].
        -- simpl in *. subst.
           pose proof (Z.div_mod number (str_len alphabet)). lia.
        -- exact Hlast.
Qed.

(** The loop never ends on a negative number, nor on a non-zero number
    with a one-character alphabet: no fuel is enough. *)
Lemma int_to_string_loop_diverges (alphabet : string) :
  forall (fuel : nat) (number : Z) (output : string),
    (number < 0 /\ 1 <= str_len alphabet)
    \/ (number <> 0 /\ str_len alphabet = 1) ->
    int_to_string_loop fuel number alphabet output = None.
Proof.
  intros fuel. induction fuel as [|fuel IH]; intros number output H; simpl.
  - destruct (number =? 0) eqn:Hz; [apply Z.eqb_eq in Hz; lia | reflexivity].
  - destruct (number =? 0) eqn:Hz; [apply Z.eqb_eq in Hz; lia|].
    unfold divmod.
    destruct (str_len alphabet =? 0) eqn:Hl; [apply Z.eqb_eq in Hl; lia|].
    assert (Hd : 0 <= number mod str_len alphabet < str_len alphabet)
      by (apply Z.mod_pos_bound; lia).
    rewrite str_getitem_in_range by exact Hd.
    apply IH. destruct H as [[Hn Hb]|[Hn Hb]].
    + left. split; [|assumption].
      apply Z.div_lt_upper_bound; lia.
    + right. split; [|assumption]. rewrite Hb, Z.div_1_r. assumption.
Qed.

Lemma int_to_string_spec (alphabet : string) (number : Z) :
  2 <= str_len alphabet -> 0 <= number ->
  exists w : string,
    int_to_string number alphabet None = Some (Ok w)
    /\ alphabet_numeral alphabet number w.
Proof.
  intros Hbase Hn. unfold int_to_string.
  destruct (int_to_string_loop_spec alphabet Hbase (loop_bound number) number
              EmptyString Hn) as (ds & Hrun & Hval & Hrange & Hlast).
  { right. unfold loop_bound. pose proof (Z.log2_nonneg number). lia. }
  rewrite Hrun. simpl. rewrite str_rev_spell.
  exists (spell alphabet (rev ds)). split; [reflexivity|].
  exists (rev ds). repeat split.
  - rewrite msd_first_value_rev. exact Hval.
  - apply Forall_rev. exact Hrange.
  - clear - Hlast. destruct ds as [|d ds] using rev_ind; [simpl; lia|].
    rewrite rev_app_distr. simpl. rewrite last_last in Hlast. exact Hlast.
Qed.

End session_facts.

(* ------------------------------------------------------------------ *)
(** * base64: decoding inverts encoding *)

Module base64_facts.
Import base64.
Local Open Scope N_scope.

Lemma all_bytes_complete (x : byte) : In x all_bytes.
Proof.
  unfold all_bytes. apply in_flat_map. exists (Byte.to_N x). split.
  - apply in_map_iff. exists (N.to_nat (Byte.to_N x)). split.
    + apply N2Nat.id.
    + apply in_seq. pose proof (Byte.to_N_bounded x). lia.
  - rewrite Byte.of_to_N. now left.
Qed.

Lemma forall_byte (P : byte -> bool) :
  forallb P all_bytes = true -> forall x, P x = true.
Proof.
  intros H x. rewrite forallb_forall in H. apply H, all_bytes_complete.
Qed.

Lemma forall_byte2 (P : byte -> byte -> bool) :
  forallb (fun x => forallb (P x) all_bytes) all_bytes = true ->
  forall x y, P x y = true.
Proof.
  intros H x y.
  exact (forall_byte _ (forall_byte (fun x => forallb (P x) all_bytes) H x) y).
Qed.


Lemma reads_spec (c : byte) (v : N) :
  reads c v = true -> Byte.eqb (seen c) PAD = false /\ a2b (seen c) = Some v.
Proof.
  unfold reads. intros H. apply andb_true_iff in H. destruct H as [H1 H2].
  apply negb_true_iff in H1. split; [exact H1|].
  destruct (a2b (seen c)); [|discriminate].
  apply N.eqb_eq in H2. now subst.
Qed.


Lemma reads_g1 x : reads (b2a (g1 x)) (g1 x) = true.
Proof. revert x. apply forall_byte. vm_compute. reflexivity. Qed.

Lemma reads_g2 x y : reads (b2a (g2 x y)) (g2 x y) = true.
Proof. revert x y. apply forall_byte2. vm_compute. reflexivity. Qed.

Lemma reads_g3 y z : reads (b2a (g3 y z)) (g3 y z) = true.
Proof. revert y z. apply forall_byte2. vm_compute. reflexivity. Qed.

Lemma reads_g4 z : reads (b2a (g4 z)) (g4 z) = true.
Proof. revert z. apply forall_byte. vm_compute. reflexivity. Qed.

(** The last group of an input of one byte, and of two. *)
Lemma reads_g2_tail x :
  reads (b2a (N.shiftl (N.land (Byte.to_N x) 3) 4))
        (N.shiftl (N.land (Byte.to_N x) 3) 4) = true.
Proof. revert x. apply forall_byte. vm_compute. reflexivity. Qed.

Lemma reads_g3_tail y :
  reads (b2a (N.shiftl (N.land (Byte.to_N y) 15) 2))
        (N.shiftl (N.land (Byte.to_N y) 15) 2) = true.
Proof. revert y. apply forall_byte. vm_compute. reflexivity. Qed.

(** The bytes the decoder rebuilds from the groups. *)
Lemma first_byte_tail x :
  to_uchar (N.lor (N.shiftl (N.shiftr (Byte.to_N x) 2) 2)
                  (N.shiftr (N.shiftl (N.land (Byte.to_N x) 3) 4) 4)) = x.
Proof.
  apply Byte.byte_dec_bl. revert x.
  apply (forall_byte (fun x =>
    Byte.eqb (to_uchar (N.lor (N.shiftl (N.shiftr (Byte.to_N x) 2) 2)
                (N.shiftr (N.shiftl (N.land (Byte.to_N x) 3) 4) 4))) x)).
  vm_compute. reflexivity.
Qed.

Lemma second_byte_tail x y :
  to_uchar (N.lor (N.shiftl (N.land (g2 x y) 15) 4)
                  (N.shiftr (N.shiftl (N.land (Byte.to_N y) 15) 2) 2)) = y.
Proof.
  apply Byte.byte_dec_bl. revert x y.
  apply (forall_byte2 (fun x y =>
    Byte.eqb (to_uchar (N.lor (N.shiftl (N.land (g2 x y) 15) 4)
                (N.shiftr (N.shiftl (N.land (Byte.to_N y) 15) 2) 2))) y)).
  vm_compute. reflexivity.
Qed.

Lemma first_byte x y :
  to_uchar (N.lor (N.shiftl (g1 x) 2) (N.shiftr (g2 x y) 4)) = x.
Proof.
  apply Byte.byte_dec_bl. revert x y.
  apply (forall_byte2 (fun x y =>
    Byte.eqb (to_uchar (N.lor (N.shiftl (g1 x) 2) (N.shiftr (g2 x y) 4))) x)).
  vm_compute. reflexivity.
Qed.

Lemma second_byte x y z :
  to_uchar (N.lor (N.shiftl (N.land (g2 x y) 15) 4) (N.shiftr (g3 y z) 2)) = y.
Proof.
  assert (E : N.land (g2 x y) 15 = N.shiftr (Byte.to_N y) 4).
  { apply N.eqb_eq. revert x y.
    apply (forall_byte2 (fun x y =>
      N.land (g2 x y) 15 =? N.shiftr (Byte.to_N y) 4)).
    vm_compute. reflexivity. }
  rewrite E. clear E. apply Byte.byte_dec_bl. revert y z.
  apply (forall_byte2 (fun y z =>
    Byte.eqb (to_uchar (N.lor (N.shiftl (N.shiftr (Byte.to_N y) 4) 4)
                              (N.shiftr (g3 y z) 2))) y)).
  vm_compute. reflexivity.
Qed.

Lemma third_byte y z :
  to_uchar (N.lor (N.shiftl (N.land (g3 y z) 3) 6) (g4 z)) = z.
Proof.
  apply Byte.byte_dec_bl. revert y z.
  apply (forall_byte2 (fun y z =>
    Byte.eqb (to_uchar (N.lor (N.shiftl (N.land (g3 y z) 3) 6) (g4 z))) z)).
  vm_compute. reflexivity.
Qed.

(** One round of the decoding loop on a character of the alphabet. *)
Lemma loop_data (c : byte) (v : N) rest quad_pos leftchar pads bin_data :
  Byte.eqb c PAD = false -> a2b c = Some v ->
  a2b_base64_loop (c :: rest) quad_pos leftchar pads bin_data
  = if quad_pos =? 0 then a2b_base64_loop rest 1 v 0 bin_data
    else if quad_pos =? 1 then
      a2b_base64_loop rest 2 (N.land v 15) 0
        (bin_data ++ [to_uchar (N.lor (N.shiftl leftchar 2) (N.shiftr v 4))])
    else if quad_pos =? 2 then
      a2b_base64_loop rest 3 (N.land v 3) 0
        (bin_data ++ [to_uchar (N.lor (N.shiftl leftchar 4) (N.shiftr v 2))])
    else
      a2b_base64_loop rest 0 0 0
        (bin_data ++ [to_uchar (N.lor (N.shiftl leftchar 6) v)]).
Proof. intros Hpad Hv. simpl. now rewrite Hpad, Hv. Qed.

Ltac read_char H :=
  let Hp := fresh in let Hv := fresh in
  destruct (reads_spec _ _ H) as [Hp Hv];
  unfold seen, g1, g2, g3, g4 in Hp, Hv;
  rewrite (loop_data _ _ _ _ _ _ _ Hp Hv); clear Hp Hv;
  cbn [N.eqb Pos.eqb].

Ltac rebuild H :=
  let Hb := fresh in
  pose proof H as Hb; unfold g1, g2, g3, g4 in Hb; rewrite Hb; clear Hb.

Lemma list_ind3 {A} (P : list A -> Prop) :
  P [] -> (forall x, P [x]) -> (forall x y, P [x; y]) ->
  (forall x y z l, P l -> P (x :: y :: z :: l)) ->
  forall l, P l.
Proof.
  intros H0 H1 H2 H3 l.
  enough (H : P l /\ (forall x, P (x :: l)) /\ (forall x y, P (x :: y :: l)))
    by apply H.
  induction l as [|a l (IH0 & IH1 & IH2)]; [now repeat split|].
  split; [apply IH1 | split].
  - intros x. apply IH2.
  - intros x y. apply H3, IH0.
Qed.

Lemma a2b_b2a_loop (s : bytes) :
  forall bin_data,
    a2b_base64_loop
      (map urlsafe_decode_translation (map urlsafe_encode_translation (b2a_base64 s)))
      0 0 0 bin_data
    = Ok (bin_data ++ s).
Proof.
  induction s as [|x|x y|x y z s IH] using list_ind3; intros bin_data.
  - simpl. now rewrite app_nil_r.
  - cbn [b2a_base64 map].
    read_char (reads_g1 x).
    read_char (reads_g2_tail x).
    rewrite first_byte_tail. reflexivity.
  - cbn [b2a_base64 map].
    read_char (reads_g1 x). read_char (reads_g2 x y).
    read_char (reads_g3_tail y).
    rebuild (first_byte x y). rebuild (second_byte_tail x y).
    simpl. now rewrite <- app_assoc.
  - cbn [b2a_base64 map].
    read_char (reads_g1 x). read_char (reads_g2 x y).
    read_char (reads_g3 y z). read_char (reads_g4 z).
    rebuild (first_byte x y). rebuild (second_byte x y z).
    rebuild (third_byte y z). rewrite IH.
    now rewrite <- !app_assoc.
Qed.

Lemma b2a_is_ascii (n : N) :
  (Byte.to_N (urlsafe_encode_translation (b2a n)) <? 128) = true.
Proof.
  destruct (N.ltb_spec n 64) as [Hn|Hn].
  - assert (H : forallb (fun k => Byte.to_N (urlsafe_encode_translation
                                   (b2a (N.of_nat k))) <? 128)
                        (seq 0 64) = true) by (vm_compute; reflexivity).
    rewrite forallb_forall in H.
    specialize (H (N.to_nat n)). rewrite N2Nat.id in H.
    apply H, in_seq. lia.
  - unfold b2a. rewrite nth_overflow; [reflexivity|].
    change (List.length (list_byte_of_string table_b2a_base64)) with 64%nat. lia.
Qed.

Lemma urlsafe_b64encode_is_ascii (s : bytes) :
  forallb (fun c => Byte.to_N c <? 128) (urlsafe_b64encode s) = true.
Proof.
  unfold urlsafe_b64encode.
  induction s as [|x|x y|x y z s IH] using list_ind3;
    cbn [b2a_base64 map forallb]; rewrite ?b2a_is_ascii; try reflexivity.
  exact IH.
Qed.

(** The decoder, fed the text of an encoding, gives the bytes back. *)
Lemma urlsafe_b64decode_b64encode (s : bytes) :
  urlsafe_b64decode (string_of_list_byte (urlsafe_b64encode s)) = Ok s.
Proof.
  unfold urlsafe_b64decode, bytes_from_decode_data.
  rewrite list_byte_of_string_of_list_byte, urlsafe_b64encode_is_ascii.
  simpl. unfold a2b_base64, urlsafe_b64encode. apply a2b_b2a_loop.
Qed.

End base64_facts.

(* ------------------------------------------------------------------ *)
(** * session: tokens *)

Section TokenFacts.
Import session.
Context {su : Shortuuid}.

Lemma token_of_number (self : Session) :
  max_step self <> 0 ->
  token self
  = cbind (int_to_string
             (Z.shiftl (port self) (bit_length (max_step self))
              + step self mod max_step self)
             get_alphabet None)
          (fun s => Some (Ok (uuid s))).
Proof.
  intros Hm. unfold token, divmod.
  destruct (max_step self =? 0) eqn:E; [apply Z.eqb_eq in E; contradiction|].
  reflexivity.
Qed.

Lemma token_defined (self : Session) :
  0 <= port self -> 0 < max_step self -> 2 <= str_len get_alphabet ->
  exists w : string,
    alphabet_numeral get_alphabet
      (Z.shiftl (port self) (bit_length (max_step self))
       + step self mod max_step self) w
    /\ token self = Some (Ok (uuid w)).
Proof.
  intros Hp Hm Ha.
  destruct (session_facts.int_to_string_spec get_alphabet
              (Z.shiftl (port self) (bit_length (max_step self))
               + step self mod max_step self) Ha) as (w & Hw & Hnum).
  { pose proof (Z.mod_pos_bound (step self) (max_step self) Hm).
    pose proof (proj2 (Z.shiftl_nonneg (port self) (bit_length (max_step self))) Hp).
    lia. }
  exists w. split; [exact Hnum|].
  rewrite token_of_number by lia. rewrite Hw. reflexivity.
Qed.

(** C1. Token derivation and determinism: for a channel [channel >= 0], a
    modulus [max_step > 0] and any [step], the token is the [shortuuid] of
    the numeral that expresses
    [n = (channel << bitlen(max_step)) + (step mod max_step)] in the
    alphabet, most significant digit first; two sessions with the same
    channel and modulus standing at the same step produce the same token;
    and the token at [step] is the token at [step mod max_step]. *)
Theorem token_derivation (channel step max_step : Z) :
  0 <= channel -> 0 < max_step -> 2 <= str_len get_alphabet ->
  let n := Z.shiftl channel (bit_length max_step) + step mod max_step in
  (exists w : string,
     alphabet_numeral get_alphabet n w
     /\ token (mkSession channel step max_step) = Some (Ok (uuid w)))
  /\ (forall s1 s2 : Session,
        port s1 = channel -> port s2 = channel ->
        session.max_step s1 = max_step -> session.max_step s2 = max_step ->
        session.step s1 = step -> session.step s2 = step ->
        token s1 = token s2
        /\ token s1 = token (mkSession channel step max_step))
  /\ token (mkSession channel step max_step)
     = token (mkSession channel (step mod max_step) max_step).
Proof.
  intros Hc Hm Ha n. split; [|split].
  - exact (token_defined (mkSession channel step max_step) Hc Hm Ha).
  - intros [p1 k1 m1] [p2 k2 m2]; simpl; intros; subst. split; reflexivity.
  - rewrite !token_of_number by (simpl; lia). simpl.
    rewrite Z.mod_mod by lia. reflexivity.
Qed.
End TokenFacts.

Lemma token_derivation_witness :
  0 <= 100 /\ 0 < 65535 /\ 2 <= str_len session.default_alphabet
  /\ (exists w : string,
        session.alphabet_numeral session.default_alphabet
          (Z.shiftl 100 (session.bit_length 65535) + 70000 mod 65535) w
        /\ @session.token stub.shortuuid (session.mkSession 100 70000 65535)
           = Some (Ok w))
  /\ @session.token stub.shortuuid (session.mkSession 100 70000 65535)
     = @session.token stub.shortuuid (session.mkSession 100 (70000 mod 65535) 65535).
Proof.
  assert (H0 : 0 <= 100) by lia.
  assert (H1 : 0 < 65535) by lia.
  assert (H2 : 2 <= str_len (@session.get_alphabet stub.shortuuid))
    by (vm_compute; discriminate).
  split; [exact H0 | split; [exact H1 | split; [exact H2 |]]].
  pose proof (@token_derivation stub.shortuuid 100 70000 65535 H0 H1 H2)
    as (Hw & _ & Hmod).
  split; [exact Hw | exact Hmod].
Defined.

(* ------------------------------------------------------------------ *)
(** * cache: classification and extraction *)

Lemma prefix_app (n h : string) :
  String.prefix n h = true <-> exists s, h = (n ++ s)%string.
Proof.
  revert h. induction n as [|a n IH]; intros h; simpl.
  - destruct h; split; intros; eauto.
  - destruct h as [|b h]; simpl.
    + split; [discriminate | intros [s Hs]; discriminate].
    + destruct (ascii_dec a b) as [->|Hab].
      * rewrite IH. split; intros [s Hs]; exists s; congruence.
      * split; [discriminate | intros [s Hs]; congruence].
Qed.

(** [str_in] decides the substring relation. *)
Lemma str_in_spec (n h : string) :
  str_in n h = true <-> exists pre post, h = (pre ++ n ++ post)%string.
Proof.
  induction h as [|c h IH]; cbn [str_in].
  - rewrite orb_false_r, prefix_app. split.
    + intros [s Hs]. exists EmptyString, s. exact Hs.
    + intros (pre & post & H). destruct pre; simpl in H; [eauto | discriminate].
  - rewrite orb_true_iff, prefix_app, IH. split.
    + intros [[s Hs] | (pre & post & H)].
      * exists EmptyString, s. exact Hs.
      * exists (String c pre), post. simpl. now rewrite H.
    + intros (pre & post & H). destruct pre as [|c' pre]; simpl in H.
      * left. eauto.
      * right. exists pre, post. congruence.
Qed.

Lemma dict_get_setitem_same {V} (d : dict V) (k : string) (v : V) :
  dict_get (dict_setitem d k v) k = Some v.
Proof.
  induction d as [|[k' v'] d IH]; simpl.
  - now rewrite String.eqb_refl.
  - destruct (String.eqb k' k) eqn:E; simpl; rewrite E; [reflexivity | exact IH].
Qed.

Lemma dict_get_setitem_other {V} (d : dict V) (k k0 : string) (v : V) :
  k <> k0 -> dict_get (dict_setitem d k v) k0 = dict_get d k0.
Proof.
  intros Hk. induction d as [|[k' v'] d IH]; simpl.
  - destruct (String.eqb k k0) eqn:E; [apply String.eqb_eq in E; contradiction|].
    reflexivity.
  - destruct (String.eqb k' k) eqn:E; simpl.
    + apply String.eqb_eq in E. subst k'.
      destruct (String.eqb k k0) eqn:E0; [apply String.eqb_eq in E0; contradiction|].
      reflexivity.
    + destruct (String.eqb k' k0); [reflexivity | exact IH].
Qed.

Module cache_facts.
Import cache.

Lemma a2b_base64_loop_raises data :
  forall quad_pos leftchar pads bin_data e,
    base64.a2b_base64_loop data quad_pos leftchar pads bin_data = Raise e ->
    e = ValueError.
Proof.
  induction data as [|c data IH]; intros q l p out e; simpl.
  - destruct (q =? 0)%N; congruence.
  - repeat match goal with
           | |- context [if ?b then _ else _] => destruct b
           | |- context [match base64.a2b ?c with _ => _ end] =>
               destruct (base64.a2b c)
           end; try apply IH; congruence.
Qed.

Lemma urlsafe_b64decode_raises (m : string) (e : exn) :
  base64.urlsafe_b64decode m = Raise e -> e = ValueError.
Proof.
  unfold base64.urlsafe_b64decode, base64.bytes_from_decode_data.
  destruct (forallb _ _); simpl; [|congruence].
  apply a2b_base64_loop_raises.
Qed.

Section WithUrlLib.
Context {lib : UrlLib}.

(** A match that fails is caught by one of the two [except] clauses. *)
Lemma parse_snip_raises (self : Cache) (snip : string) (e : exn) :
  parse_snip self snip = Raise e ->
  is_ValueError e || is_KeyError e = true.
Proof.
  unfold parse_snip, dict_getitem.
  destruct (urlparse_query snip) as [q|]; [|intros [= <-]; reflexivity].
  destruct (dict_get _ _) as [m|]; simpl; [|intros [= <-]; reflexivity].
  intros H. apply urlsafe_b64decode_raises in H. now subst.
Qed.

Lemma snip_fails_iff (self : Cache) (snip : string) :
  snip_fails self snip <-> exists e, parse_snip self snip = Raise e.
Proof.
  unfold parse_snip, dict_getitem. split.
  - intros [H | q Hq Hm | q m Hq Hm Hd]; rewrite ?Hq, ?Hm; simpl; eauto.
    now rewrite H; eauto.
  - intros [e He].
    destruct (urlparse_query snip) as [q|] eqn:Hq; [|now apply malformed_url].
    destruct (dict_get _ _) as [m|] eqn:Hm; simpl in He.
    + pose proof (urlsafe_b64decode_raises _ _ He). subst e.
      exact (bad_base64 self snip q m Hq Hm He).
    + exact (missing_parameter self snip q Hq Hm).
Qed.

(** [_extract] never raises. *)
Lemma extract_loop_returns (self : Cache) (body : string) matches :
  exists data, extract_loop self body matches = Ok data.
Proof.
  induction matches as [|[a b] rest IH]; simpl; [eauto|].
  destruct (parse_snip self _) as [d|e] eqn:E; [eauto|].
  now rewrite (parse_snip_raises _ _ _ E).
Qed.

Lemma extract_returns (self : Cache) (k : string) (r : Response) :
  exists data, _extract self k r = Ok data.
Proof. apply extract_loop_returns. Qed.

(** With nothing to parse, [_extract] falls off its loop. *)
Lemma extract_no_payload (self : Cache) (k : string) (r : Response) :
  no_payload self k r -> _extract self k r = Ok None.
Proof.
  unfold no_payload, _extract.
  induction 1 as [|[a b] rest Hfail _ IH]; simpl; [reflexivity|].
  apply snip_fails_iff in Hfail. destruct Hfail as [e He].
  simpl in He. rewrite He, (parse_snip_raises _ _ _ He). exact IH.
Qed.

(** What the page reflects is what [_extract] decodes. *)
Lemma extract_reflected (self : Cache) (k : string) (r : Response) (b : bytes) :
  reflects self k r (string_of_list_byte (base64.urlsafe_b64encode b)) ->
  _extract self k r = Ok (Some b).
Proof.
  intros (a & bnd & rest & q & Hm & Hq & Hslot).
  unfold _extract. rewrite Hm. simpl.
  unfold parse_snip, dict_getitem. rewrite Hq, Hslot. simpl.
  now rewrite base64_facts.urlsafe_b64decode_b64encode.
Qed.

Lemma raise_for_status_2xx (r : Response) :
  200 <= status_code r < 300 -> raise_for_status r = Ok tt.
Proof.
  intros H. unfold raise_for_status.
  destruct (400 <=? status_code r) eqn:E; [apply Z.leb_le in E; lia|].
  reflexivity.
Qed.

Lemma setitem_query_slot (self : Cache) (k : string) (value : bytes) :
  dict_get (setitem_query self k value) (slot self)
  = Some (QBytes (base64.urlsafe_b64encode value)).
Proof. apply dict_get_setitem_same. Qed.

Lemma getitem_query_key (self : Cache) (k : string) :
  dict_get (getitem_query self k) (key self) = Some (QStr k).
Proof. apply dict_get_setitem_same. Qed.
End WithUrlLib.
End cache_facts.

(* ------------------------------------------------------------------ *)
(** * cache: the claims *)

Section CacheClaims.
Import cache cache_facts.
Context {lib : UrlLib} {Net : Type} {tr : Transport Net}.

Lemma getitem_served (self : Cache) (k : string) (net net' : Net) (r : Response) :
  requests_get (url self) (getitem_query self k) (proxy self) net = (Ok r, net') ->
  __getitem__ self k net = (getitem_response self k r, net').
Proof. intros H. unfold __getitem__. now rewrite H. Qed.

Lemma setitem_served (self : Cache) (k : string) (value : bytes)
    (net net' : Net) (r : Response) :
  requests_get (url self) (setitem_query self k value) (proxy self) net
  = (Ok r, net') ->
  __setitem__ self k value net = (setitem_response self k r, net').
Proof. intros H. unfold __setitem__. now rewrite H. Qed.

(** C4. Round trip at the cache layer: a [set] of [b] under a token not
    yet cached sends the url-safe base64 of [b] as the reflected argument
    and succeeds; a [get] of the token that is served the page reflecting
    that argument returns exactly [b]; and decoding inverts encoding for
    every byte string. *)
Theorem cache_round_trip (self : Cache) (t : string) (b : bytes)
    (net net1 net2 : Net) (r r' : Response) :
  io.len b <= io.DEFAULT_CHUNK_SIZE ->
  requests_get (url self) (setitem_query self t b) (proxy self) net = (Ok r, net1) ->
  200 <= status_code r < 300 ->
  is_hit r = false ->
  reflects self t r (string_of_list_byte (base64.urlsafe_b64encode b)) ->
  requests_get (url self) (getitem_query self t) (proxy self) net1 = (Ok r', net2) ->
  status_code r' = status_code r -> text r' = text r -> is_hit r' = true ->
  dict_get (setitem_query self t b) (slot self)
  = Some (QBytes (base64.urlsafe_b64encode b))
  /\ __setitem__ self t b net = (Ok tt, net1)
  /\ __getitem__ self t net1 = (Ok (Some b), net2)
  /\ (forall b0 : bytes,
        base64.urlsafe_b64decode
          (string_of_list_byte (base64.urlsafe_b64encode b0)) = Ok b0).
Proof.
  intros _ Hset Hok Hmiss Hrefl Hget Hstatus Htext Hhit.
  split; [apply setitem_query_slot | split; [|split]].
  - rewrite (setitem_served _ _ _ _ _ _ Hset).
    unfold setitem_response.
    now rewrite (raise_for_status_2xx r Hok); simpl; rewrite Hmiss.
  - rewrite (getitem_served _ _ _ _ _ Hget).
    unfold getitem_response.
    rewrite raise_for_status_2xx by (rewrite Hstatus; exact Hok).
    simpl. rewrite Hhit. simpl. f_equal.
    apply extract_reflected.
    destruct Hrefl as (a & bnd & rest & q & Hm & Hq & Hslot).
    exists a, bnd, rest, q. now rewrite Htext.
  - exact base64_facts.urlsafe_b64decode_b64encode.
Qed.

(** C6, as the code has it. A [get] whose response is classified as
    cached but whose body holds no parseable reflected payload (no match
    of the pattern, a url that does not parse, a missing data argument or
    bad base64) returns no payload, [None]; it raises nothing, and so does
    not signal the [NotCachedException] of an uncached token. *)
Theorem extraction_failure_returns_none (self : Cache) (k : string)
    (net net' : Net) (r : Response) :
  requests_get (url self) (getitem_query self k) (proxy self) net = (Ok r, net') ->
  200 <= status_code r < 300 ->
  is_hit r = true ->
  no_payload self k r ->
  __getitem__ self k net = (Ok None, net').
Proof.
  intros Hget Hok Hhit Hnone.
  rewrite (getitem_served _ _ _ _ _ Hget). unfold getitem_response.
  rewrite (raise_for_status_2xx r Hok). simpl. rewrite Hhit. simpl.
  now rewrite (extract_no_payload _ _ _ Hnone).
Qed.

(** C8. Classification: on a response with a 2xx status, [get] raises
    [NotCachedException] exactly when the [X-Cache-Status] value (taken as
    [MISS] when the header is absent) does not contain [HIT], and goes on
    to the extraction otherwise; [set] raises [AlreadyCachedException]
    exactly when the value contains [HIT], and returns as a successful
    write otherwise. *)
Theorem hit_miss_classification (self : Cache) (k : string) (r : Response) :
  200 <= status_code r < 300 ->
  (is_hit r = true <->
     exists v pre post,
       x_cache_status r = Some v /\ v = (pre ++ "HIT" ++ post)%string)
  /\ (forall net net',
        requests_get (url self) (getitem_query self k) (proxy self) net
        = (Ok r, net') ->
        (fst (__getitem__ self k net) = Raise (NotCachedException k)
         <-> is_hit r = false)
        /\ (is_hit r = true ->
            __getitem__ self k net = (_extract self k r, net')))
  /\ (forall value net net',
        requests_get (url self) (setitem_query self k value) (proxy self) net
        = (Ok r, net') ->
        ((exists data,
            fst (__setitem__ self k value net)
            = Raise (AlreadyCachedException k data))
         <-> is_hit r = true)
        /\ (is_hit r = true ->
            exists data,
              _extract self k r = Ok data
              /\ __setitem__ self k value net
                 = (Raise (AlreadyCachedException k data), net'))
        /\ (is_hit r = false -> __setitem__ self k value net = (Ok tt, net'))).
Proof.
  intros Hok. split; [|split].
  - unfold is_hit. destruct (x_cache_status r) as [v|].
    + rewrite str_in_spec. split.
      * intros (pre & post & H). exists v, pre, post. now split.
      * intros (v' & pre & post & [= <-] & H). now exists pre, post.
    + split; [intros H; vm_compute in H; discriminate|].
      intros (v & _ & _ & H & _). discriminate.
  - intros net net' Hget. rewrite (getitem_served _ _ _ _ _ Hget).
    unfold getitem_response. rewrite (raise_for_status_2xx r Hok). simpl.
    destruct (is_hit r) eqn:Hhit; simpl.
    + split; [|reflexivity]. split; [|discriminate].
      destruct (extract_returns self k r) as [data Hd].
      rewrite Hd. discriminate.
    + split; [|discriminate]. split; reflexivity.
  - intros value net net' Hset. rewrite (setitem_served _ _ _ _ _ _ Hset).
    unfold setitem_response. rewrite (raise_for_status_2xx r Hok). simpl.
    destruct (extract_returns self k r) as [data Hd].
    destruct (is_hit r) eqn:Hhit; simpl; rewrite ?Hd; simpl.
    + split; [|split]; [| |discriminate].
      * split; [reflexivity | intros _; now exists data].
      * intros _. now exists data.
    + split; [|split]; [| discriminate | reflexivity].
      split; [intros [d Hd']; discriminate | discriminate].
Qed.
End CacheClaims.

Lemma cache_round_trip_witness :
  @cache.__setitem__ stub.urllib _ stub.scripted stub.target stub.trigger_key
     stub.trigger [stub.fresh_page; stub.cached_page]
  = (Ok tt, [stub.cached_page])
  /\ @cache.__getitem__ stub.urllib _ stub.scripted stub.target stub.trigger_key
       [stub.cached_page]
     = (Ok (Some stub.trigger), []).
Proof.
  assert (Hlen : io.len stub.trigger <= io.DEFAULT_CHUNK_SIZE)
    by (vm_compute; discriminate).
  assert (Hok : 200 <= cache.status_code stub.fresh_page < 300) by (simpl; lia).
  assert (Hrefl : @cache.reflects stub.urllib stub.target stub.trigger_key
                    stub.fresh_page
                    (string_of_list_byte (base64.urlsafe_b64encode stub.trigger))).
  { exists 0, 134, [], "q=26hqBz7TUL3ikYTGCFBp&p=VGhlIGNyb3cgZmxpZXMgYXQgbWlkbmlnaHQh".
    vm_compute. repeat split. }
  pose proof (@cache_round_trip stub.urllib _ stub.scripted stub.target
                stub.trigger_key stub.trigger
                [stub.fresh_page; stub.cached_page] [stub.cached_page] []
                stub.fresh_page stub.cached_page
                Hlen eq_refl Hok eq_refl Hrefl eq_refl eq_refl eq_refl eq_refl)
    as (_ & Hset & Hget & _).
  split; [exact Hset | exact Hget].
Defined.

(** C6, as stated, fails: the stated outcome of a cached response with
    nothing to extract is the [NotCachedException] of an uncached token. *)
Lemma extraction_failure_is_not_miss :
  ~ (forall (lib : cache.UrlLib) (Net : Type) (tr : cache.Transport Net)
            (self : cache.Cache) (k : string) (net net' : Net)
            (r : cache.Response),
        cache.requests_get (cache.url self) (cache.getitem_query self k)
                           (cache.proxy self) net = (Ok r, net') ->
        200 <= cache.status_code r < 300 ->
        cache.is_hit r = true ->
        cache.no_payload self k r ->
        fst (cache.__getitem__ self k net) = Raise (NotCachedException k)).
Proof.
  intros H.
  specialize (H stub.urllib _ stub.scripted stub.target stub.trigger_key
                [stub.blank_page] [] stub.blank_page eq_refl).
  assert (Hok : 200 <= cache.status_code stub.blank_page < 300) by (simpl; lia).
  specialize (H Hok eq_refl).
  assert (Hnone : @cache.no_payload stub.urllib stub.target stub.trigger_key
                    stub.blank_page) by (vm_compute; constructor).
  specialize (H Hnone). vm_compute in H. discriminate.
Qed.

Lemma extraction_failure_returns_none_witness :
  @cache.__getitem__ stub.urllib _ stub.scripted stub.target stub.trigger_key
     [stub.probed_page]
  = (Ok None, []).
Proof.
  assert (Hok : 200 <= cache.status_code stub.probed_page < 300) by (simpl; lia).
  assert (Hnone : @cache.no_payload stub.urllib stub.target stub.trigger_key
                    stub.probed_page).
  { unfold cache.no_payload.
    replace (cache.re_finditer _ _) with [(0, 95)] by (vm_compute; reflexivity).
    constructor; [|constructor].
    apply cache.missing_parameter with (q := "q=26hqBz7TUL3ikYTGCFBp");
      vm_compute; reflexivity. }
  exact (@extraction_failure_returns_none stub.urllib _ stub.scripted
           stub.target stub.trigger_key [stub.probed_page] [] stub.probed_page
           eq_refl Hok eq_refl Hnone).
Defined.

Lemma hit_miss_classification_witness :
  200 <= cache.status_code stub.cached_page < 300
  /\ (cache.is_hit stub.cached_page = true <->
        exists v pre post,
          cache.x_cache_status stub.cached_page = Some v
          /\ v = (pre ++ "HIT" ++ post)%string).
Proof.
  assert (Hok : 200 <= cache.status_code stub.cached_page < 300) by (simpl; lia).
  split; [exact Hok|].
  exact (proj1 (@hit_miss_classification stub.urllib _ stub.scripted stub.target
                  stub.trigger_key stub.cached_page Hok)).
Defined.

(* ------------------------------------------------------------------ *)
(** * io: the reader *)

Section ReaderClaims.
Import session io.
Context {su : Shortuuid} {C : Type} {cl : CacheLike C}.

(** What [__next__] yields, and where it leaves the session. *)
Lemma next_yields (s sess : Session) (k : Z) (tok : string) :
  __next__ s = Some (Ok ((k, tok), sess)) ->
  k = session.step s
  /\ token s = Some (Ok tok)
  /\ sess = set_step s (session.step s + 1).
Proof.
  unfold __next__. destruct (token s) as [[t|e]|]; simpl; [|discriminate..].
  intros [= <- <- <-]. repeat split.
Qed.

Lemma set_step_back (s : Session) :
  set_step (set_step s (session.step s + 1))
           (session.step (set_step s (session.step s + 1)) - 1) = s.
Proof.
  destruct s as [p k m]. unfold set_step. simpl. f_equal. lia.
Qed.

Lemma truthy_nonempty (d : bytes) : d <> [] -> truthy (Some d) = true.
Proof. destruct d; [congruence | reflexivity]. Qed.

Lemma truthy_payload (data : option bytes) :
  truthy data = true -> data = Some (payload data) /\ payload data <> [].
Proof. destruct data as [[|x d]|]; simpl; try discriminate. now split. Qed.

(** C2, as the code has it. When the cache reports a MISS at the token of
    step [k], [readinto] returns 0 and leaves the buffer as it was; the
    iterator advanced when it yielded that token and the MISS does not
    rewind it, so the session stands at [k + 1] after the call, the step
    whose token a subsequent read probes. *)
Theorem miss_returns_empty_one_past (fuel : nat) (b : buffer) (w : world C)
    (k : Z) (tok missed : string) (sess : Session) (c : C) :
  __next__ (the_session w) = Some (Ok ((k, tok), sess)) ->
  cache_getitem tok (the_cache w) = (Raise (NotCachedException missed), c) ->
  readinto (S fuel) b w
  = Some (Ok 0, b,
          mkWorld c sess ((events w ++ [ReaderChecking k tok]) ++ [NotCached k]))
  /\ k = session.step (the_session w)
  /\ session.step sess = k + 1
  /\ __next__ sess
     = cbind (token sess)
             (fun t => Some (Ok ((k + 1, t), set_step sess (k + 2)))).
Proof.
  intros Hnext Hget. split.
  - simpl. rewrite Hnext, Hget. reflexivity.
  - destruct (next_yields _ _ _ _ Hnext) as (-> & _ & ->).
    split; [reflexivity | split; [reflexivity|]].
    unfold __next__. simpl.
    replace (session.step (the_session w) + 1 + 1)
      with (session.step (the_session w) + 2) by lia.
    reflexivity.
Qed.

(** C3. Size-gated rewind: when the payload cached at the current token
    is longer than a memoryview destination, [readinto] returns 0, writes
    nothing into the destination, and leaves the session where it stood
    before the call. *)
Theorem size_gated_rewind (fuel : nat) (content d : bytes) (w : world C)
    (k : Z) (tok : string) (sess : Session) (c : C) :
  __next__ (the_session w) = Some (Ok ((k, tok), sess)) ->
  cache_getitem tok (the_cache w) = (Ok (Some d), c) ->
  len d > len content ->
  exists w' : world C,
    readinto (S fuel) (Memoryview content) w
    = Some (Ok 0, Memoryview content, w')
    /\ the_session w' = the_session w
    /\ session.step (the_session w') = k
    /\ the_cache w' = c.
Proof.
  intros Hnext Hget Hlen.
  assert (Hd : truthy (Some d) = true).
  { apply truthy_nonempty. intros ->. unfold len in Hlen. simpl in Hlen. lia. }
  simpl. rewrite Hnext, Hget, Hd. simpl payload.
  destruct (len d >? len content) eqn:E;
    [|rewrite Z.gtb_ltb in E; apply Z.ltb_ge in E; lia].
  eexists. split; [reflexivity|]. simpl.
  destruct (next_yields _ _ _ _ Hnext) as (-> & _ & ->).
  split; [apply set_step_back | split; [simpl; lia | reflexivity]].
Qed.

(** C10. A bytearray destination is not size gated: with a non-empty
    payload [d] cached at the current token, [readinto] replaces the whole
    content of the bytearray by [d], whatever its length was, leaves the
    session advanced, and returns [len(d)]. *)
Theorem bytearray_takes_payload (fuel : nat) (prior d : bytes) (w : world C)
    (k : Z) (tok : string) (sess : Session) (c : C) :
  __next__ (the_session w) = Some (Ok ((k, tok), sess)) ->
  cache_getitem tok (the_cache w) = (Ok (Some d), c) ->
  d <> [] ->
  readinto (S fuel) (Bytearray prior) w
  = Some (Ok (len d), Bytearray d,
          mkWorld c sess ((events w ++ [ReaderChecking k tok]) ++ [ReadData k d]))
  /\ session.step sess = session.step (the_session w) + 1.
Proof.
  intros Hnext Hget Hd. split.
  - simpl. rewrite Hnext, Hget, (truthy_nonempty d Hd). reflexivity.
  - now destruct (next_yields _ _ _ _ Hnext) as (_ & _ & ->).
Qed.

(** A call that returns did so at its last probe, on a MISS or on a
    non-empty payload. *)
Lemma readinto_stops (fuel : nat) :
  forall (b b' : buffer) (w w' : world C) (n : Z),
    readinto fuel b w = Some (Ok n, b', w') ->
    exists new : list event,
      events w' = events w ++ new
      /\ ((exists before k, new = before ++ [NotCached k] /\ n = 0 /\ b' = b)
          \/ (exists k d,
                d <> [] /\ In (ReadData k d) new
                /\ ((n = len d
                     /\ firstn (List.length d) (content_of b') = d)
                    \/ (n = 0 /\ b' = b)))).
Proof.
  induction fuel as [|fuel IH]; intros b b' w w' n; simpl; [discriminate|].
  destruct (__next__ (the_session w)) as [[[[k tok] sess]|e]|];
    [|discriminate..].
  destruct (cache_getitem tok (the_cache w)) as [[data|e] c].
  - destruct (truthy data) eqn:Ht.
    + destruct (truthy_payload data Ht) as [_ Hne].
      set (d := payload data) in *.
      destruct b as [prior|content|].
      * intros [= <- <- <-]. simpl.
        exists [ReaderChecking k tok; ReadData k d].
        split; [now rewrite <- app_assoc|].
        right. exists k, d. split; [exact Hne|]. split; [simpl; auto|].
        left. split; [reflexivity|]. simpl. apply firstn_all.
      * destruct (len d >? len content).
        -- intros [= <- <- <-]. simpl.
           exists [ReaderChecking k tok; ReadData k d;
                   MemoryviewTooSmall (len content) (len d)].
           split; [now rewrite <- !app_assoc|].
           right. exists k, d. split; [exact Hne|]. split; [simpl; auto|].
           right. now split.
        -- intros [= <- <- <-]. simpl.
           exists [ReaderChecking k tok; ReadData k d].
           split; [now rewrite <- app_assoc|].
           right. exists k, d. split; [exact Hne|]. split; [simpl; auto|].
           left. split; [reflexivity|].
           rewrite firstn_app, firstn_all, Nat.sub_diag. simpl.
           apply app_nil_r.
      * discriminate.
    + intros Hrun. destruct (IH _ _ _ _ _ Hrun) as (new & Hev & Hlast).
      simpl in Hev. exists (ReaderChecking k tok :: new).
      split; [now rewrite Hev, <- app_assoc|].
      destruct Hlast
        as [(before & k' & Hl & Hn & Hb) | (k' & d & Hne & Hin & Hres)].
      * left. exists (ReaderChecking k tok :: before), k'.
        split; [now rewrite Hl | now split].
      * right. exists k', d. split; [exact Hne|]. split; [now right | exact Hres].
  - destruct e; try discriminate.
    intros [= <- <- <-]. simpl.
    exists [ReaderChecking k tok; NotCached k].
    split; [now rewrite <- app_assoc|].
    left. exists [ReaderChecking k tok], k. now repeat split.
Qed.

(** C9. Empty payloads are skipped: when the probe of the current token
    is a HIT whose payload is empty or absent, [readinto] neither returns
    it nor stops; the session is one step further and the next token is
    probed on the cache that probe left.  If the next token is a MISS the
    call returns 0 there, with the buffer untouched; if it holds a
    non-empty payload the call returns that payload (here into a
    bytearray); if it is empty again the call has not ended after two
    probes.  So a call that returns has stopped on a MISS, with 0 and the
    buffer untouched, or on a non-empty payload. *)
Theorem empty_payload_skipped (fuel : nat) (b : buffer) (w : world C)
    (k : Z) (tok : string) (sess : Session) (c : C) (data : option bytes) :
  __next__ (the_session w) = Some (Ok ((k, tok), sess)) ->
  cache_getitem tok (the_cache w) = (Ok data, c) ->
  truthy data = false ->
  readinto (S fuel) b w
  = readinto fuel b (mkWorld c sess (events w ++ [ReaderChecking k tok]))
  /\ session.step sess = session.step (the_session w) + 1
  /\ (forall (tok2 missed : string) (sess2 : Session) (c2 : C),
        __next__ sess = Some (Ok ((k + 1, tok2), sess2)) ->
        cache_getitem tok2 c = (Raise (NotCachedException missed), c2) ->
        readinto (S (S fuel)) b w
        = Some (Ok 0, b,
                mkWorld c2 sess2
                  (((events w ++ [ReaderChecking k tok])
                    ++ [ReaderChecking (k + 1) tok2]) ++ [NotCached (k + 1)])))
  /\ (forall (tok2 : string) (sess2 : Session) (c2 : C) (prior d : bytes),
        __next__ sess = Some (Ok ((k + 1, tok2), sess2)) ->
        cache_getitem tok2 c = (Ok (Some d), c2) ->
        d <> [] ->
        b = Bytearray prior ->
        readinto (S (S fuel)) b w
        = Some (Ok (len d), Bytearray d,
                mkWorld c2 sess2
                  (((events w ++ [ReaderChecking k tok])
                    ++ [ReaderChecking (k + 1) tok2]) ++ [ReadData (k + 1) d])))
  /\ (forall (tok2 : string) (sess2 : Session) (c2 : C) (data2 : option bytes),
        __next__ sess = Some (Ok ((k + 1, tok2), sess2)) ->
        cache_getitem tok2 c = (Ok data2, c2) ->
        truthy data2 = false ->
        readinto 2 b w = None)
  /\ (forall (n : Z) (b' : buffer) (w' : world C),
        readinto (S fuel) b w = Some (Ok n, b', w') ->
        exists new : list event,
          events w' = events w ++ new
          /\ ((exists before k', new = before ++ [NotCached k']
                                 /\ n = 0 /\ b' = b)
              \/ (exists k' d,
                    d <> [] /\ In (ReadData k' d) new
                    /\ ((n = len d
                         /\ firstn (List.length d) (content_of b') = d)
                        \/ (n = 0 /\ b' = b))))).
Proof.
  intros Hnext Hget Hfalsy.
  assert (Hround : forall f : nat,
             readinto (S f) b w
             = readinto f b (mkWorld c sess (events w ++ [ReaderChecking k tok]))).
  { intros f. cbn [readinto]. now rewrite Hnext, Hget, Hfalsy. }
  split; [apply Hround | split; [|split; [|split; [|split]]]].
  - now destruct (next_yields _ _ _ _ Hnext) as (_ & _ & ->).
  - intros tok2 missed sess2 c2 Hnext2 Hget2.
    rewrite Hround. cbn [readinto the_session the_cache events].
    now rewrite Hnext2, Hget2.
  - intros tok2 sess2 c2 prior d Hnext2 Hget2 Hd ->.
    rewrite Hround. cbn [readinto the_session the_cache events].
    now rewrite Hnext2, Hget2, (truthy_nonempty d Hd).
  - intros tok2 sess2 c2 data2 Hnext2 Hget2 Hfalsy2.
    rewrite Hround. cbn [readinto the_session the_cache events].
    now rewrite Hnext2, Hget2, Hfalsy2.
  - intros n b' w'. apply readinto_stops.
Qed.
End ReaderClaims.

(** C2, as stated, fails: after a MISS at the token of step [k] the
    session does not stand at [k]. *)
Lemma miss_advances_session :
  ~ (forall (su : session.Shortuuid) (C : Type) (cl : io.CacheLike C)
            (fuel : nat) (b : io.buffer) (w : io.world C) (k : Z)
            (tok missed : string) (sess : session.Session) (c : C),
        session.__next__ (io.the_session w) = Some (Ok ((k, tok), sess)) ->
        io.cache_getitem tok (io.the_cache w)
        = (Raise (NotCachedException missed), c) ->
        exists w' : io.world C,
          io.readinto (S fuel) b w = Some (Ok 0, b, w')
          /\ session.step (io.the_session w') = k).
Proof.
  intros H.
  destruct (H stub.shortuuid _ stub.store_cache 0%nat (io.Bytearray [])
              (stub.channel7 []) 0 stub.token0 stub.token0
              (session.mkSession 7 1 65535) [(stub.token0, None)]
              eq_refl eq_refl) as (w' & Hrun & Hstep).
  vm_compute in Hrun. injection Hrun as <-. vm_compute in Hstep. discriminate.
Qed.

Lemma miss_returns_empty_one_past_witness :
  @io.readinto stub.shortuuid _ stub.store_cache 1 (io.Bytearray [])
     (stub.channel7 [])
  = Some (Ok 0, io.Bytearray [],
          io.mkWorld [(stub.token0, None)] (session.mkSession 7 1 65535)
            [io.ReaderChecking 0 stub.token0; io.NotCached 0]).
Proof.
  exact (proj1 (@miss_returns_empty_one_past stub.shortuuid _ stub.store_cache
                  0%nat (io.Bytearray []) (stub.channel7 []) 0 stub.token0
                  stub.token0 (session.mkSession 7 1 65535)
                  [(stub.token0, None)] eq_refl eq_refl)).
Defined.

Lemma size_gated_rewind_witness :
  io.len stub.peer_data > io.len [x00; x00]
  /\ exists w',
       @io.readinto stub.shortuuid _ stub.store_cache 1
          (io.Memoryview [x00; x00])
          (stub.channel7 [(stub.token0, Some stub.peer_data)])
       = Some (Ok 0, io.Memoryview [x00; x00], w')
       /\ io.the_session w' = session.init 7.
Proof.
  assert (Hlen : io.len stub.peer_data > io.len [x00; x00]) by reflexivity.
  split; [exact Hlen|].
  destruct (@size_gated_rewind stub.shortuuid _ stub.store_cache 0%nat
              [x00; x00] stub.peer_data
              (stub.channel7 [(stub.token0, Some stub.peer_data)])
              0 stub.token0 (session.mkSession 7 1 65535)
              [(stub.token0, Some stub.peer_data)] eq_refl eq_refl Hlen)
    as (w' & Hrun & Hsess & _).
  exists w'. split; [exact Hrun | exact Hsess].
Defined.

Lemma bytearray_takes_payload_witness :
  @io.readinto stub.shortuuid _ stub.store_cache 1 (io.Bytearray [x00])
     (stub.channel7 [(stub.token0, Some stub.peer_data)])
  = Some (Ok 4, io.Bytearray stub.peer_data,
          io.mkWorld [(stub.token0, Some stub.peer_data)]
            (session.mkSession 7 1 65535)
            [io.ReaderChecking 0 stub.token0; io.ReadData 0 stub.peer_data]).
Proof.
  assert (Hd : stub.peer_data <> []) by discriminate.
  exact (proj1 (@bytearray_takes_payload stub.shortuuid _ stub.store_cache
                  0%nat [x00] stub.peer_data
                  (stub.channel7 [(stub.token0, Some stub.peer_data)])
                  0 stub.token0 (session.mkSession 7 1 65535)
                  [(stub.token0, Some stub.peer_data)] eq_refl eq_refl Hd)).
Defined.

Lemma empty_payload_skipped_witness :
  @io.readinto stub.shortuuid _ stub.store_cache 2 (io.Bytearray [])
     (stub.channel7 [(stub.token0, None); (stub.token1, Some stub.peer_data)])
  = Some (Ok 4, io.Bytearray stub.peer_data,
          io.mkWorld [(stub.token0, None); (stub.token1, Some stub.peer_data)]
            (session.mkSession 7 2 65535)
            [io.ReaderChecking 0 stub.token0; io.ReaderChecking 1 stub.token1;
             io.ReadData 1 stub.peer_data]).
Proof.
  assert (Hd : stub.peer_data <> []) by discriminate.
  exact (proj1 (proj2 (proj2 (proj2
           (@empty_payload_skipped stub.shortuuid _ stub.store_cache
              0%nat (io.Bytearray [])
              (stub.channel7 [(stub.token0, None);
                              (stub.token1, Some stub.peer_data)])
              0 stub.token0 (session.mkSession 7 1 65535)
              [(stub.token0, None); (stub.token1, Some stub.peer_data)]
              None eq_refl eq_refl eq_refl))))
           stub.token1 (session.mkSession 7 2 65535)
           [(stub.token0, None); (stub.token1, Some stub.peer_data)]
           [] stub.peer_data eq_refl eq_refl Hd eq_refl).
Defined.

(* ------------------------------------------------------------------ *)
(** * io: chunking *)

Lemma slice_nonneg {A} (l : list A) (lo hi : Z) :
  0 <= lo <= hi ->
  slice l lo hi = firstn (Z.to_nat (hi - lo)) (skipn (Z.to_nat lo) l).
Proof.
  intros H. unfold slice.
  destruct (hi <? 0) eqn:Ehi; [apply Z.ltb_lt in Ehi; lia|].
  destruct (lo <? 0) eqn:Elo; [apply Z.ltb_lt in Elo; lia|].
  set (n := Z.of_nat (List.length l)).
  destruct (Z_le_gt_dec n lo) as [Hlo|Hlo].
  - rewrite !skipn_all2 by lia. now rewrite !firstn_nil.
  - rewrite (Z.min_l lo n) by lia.
    destruct (Z_le_gt_dec n hi) as [Hhi|Hhi].
    + rewrite (Z.min_r hi n) by lia.
      rewrite !firstn_all2; [reflexivity | |]; rewrite length_skipn; lia.
    + now rewrite (Z.min_l hi n) by lia.
Qed.

Module chunk_facts.
Import io.

Lemma chop_indices {A} (c n : nat) :
  forall data : list A,
    map (fun k => firstn c (skipn (k * c) data)) (seq 0 n) = chop n c data.
Proof.
  induction n as [|n IH]; intros data; [reflexivity|].
  cbn [seq chop map]. f_equal. rewrite <- seq_shift, map_map, <- IH.
  apply map_ext. intros k. rewrite skipn_skipn. do 2 f_equal. lia.
Qed.

Lemma chunks_chop (cs : Z) (data : bytes) :
  0 < cs ->
  chunks cs data
  = Ok (chop (Z.to_nat ((len data + cs - 1) / cs)) (Z.to_nat cs) data).
Proof.
  intros Hcs. unfold chunks, range0.
  destruct (cs =? 0) eqn:E0; [apply Z.eqb_eq in E0; lia|].
  destruct (cs <? 0) eqn:E1; [apply Z.ltb_lt in E1; lia|].
  simpl. f_equal. rewrite map_map, <- chop_indices.
  apply map_ext. intros k. rewrite slice_nonneg by nia.
  f_equal; [f_equal; lia | f_equal; nia].
Qed.

Lemma concat_chop {A} (c n : nat) :
  forall l : list A, (List.length l <= n * c)%nat -> List.concat (chop n c l) = l.
Proof.
  induction n as [|n IH]; intros l Hl; simpl in *.
  - destruct l; [reflexivity | simpl in Hl; lia].
  - rewrite IH; [apply firstn_skipn | rewrite length_skipn; lia].
Qed.

Lemma chop_bounded {A} (c n : nat) :
  forall l : list A, Forall (fun p => (List.length p <= c)%nat) (chop n c l).
Proof.
  induction n as [|n IH]; intros l; simpl; constructor; [|apply IH].
  rewrite length_firstn. lia.
Qed.

Lemma length_chop {A} (c n : nat) (l : list A) : List.length (chop n c l) = n.
Proof. revert l. induction n as [|n IH]; intros l; simpl; [|rewrite IH]; easy. Qed.

Lemma chop_lengths {A} (c n : nat) :
  forall l : list A,
    map (@List.length A) (chop n c l) = chop_sizes n c (List.length l).
Proof.
  induction n as [|n IH]; intros l; simpl; [reflexivity|].
  now rewrite length_firstn, IH, length_skipn.
Qed.

(** The number of chunks is the ceiling of the quotient. *)
Lemma chunk_count (cs size : Z) :
  0 < cs -> 0 <= size ->
  let n := (size + cs - 1) / cs in
  0 <= n /\ size <= n * cs < size + cs.
Proof.
  intros Hcs Hsize n.
  pose proof (Z.div_mod (size + cs - 1) cs ltac:(lia)) as Hdm.
  pose proof (Z.mod_pos_bound (size + cs - 1) cs Hcs) as Hm.
  fold n in Hdm. split; [apply Z.div_pos; lia | nia].
Qed.

End chunk_facts.

(* ------------------------------------------------------------------ *)
(** * io: the writer *)

Section WriterFacts.
Import session io.
Context {su : Shortuuid} {C : Type} {cl : CacheLike C}.

Lemma wrote_app (a b : list event) : wrote (a ++ b) = wrote a ++ wrote b.
Proof.
  induction a as [|e a IH]; [reflexivity|].
  destruct e; simpl; now rewrite ?IH.
Qed.

Lemma calls_app (a b : list event) : calls (a ++ b) = calls a ++ calls b.
Proof.
  induction a as [|e a IH]; [reflexivity|].
  destruct e; simpl; now rewrite ?IH.
Qed.

Lemma wrote_notify (self : CacheWriter) (d : bytes) : wrote (notify self d) = [].
Proof. unfold notify. induction (_consumers self); simpl; auto. Qed.

Lemma calls_notify (self : CacheWriter) (d : bytes) :
  calls (notify self d) = map (fun func => (func, d)) (_consumers self).
Proof.
  unfold notify. induction (_consumers self) as [|f l IH]; simpl; [|rewrite IH]; easy.
Qed.

(** More fuel does not change the answer of a loop that ended. *)
Lemma write_chunk_mono (self : CacheWriter) (chunk : bytes) (fuel : nat) :
  forall (fuel' : nat) (w : world C) r,
    (fuel <= fuel')%nat ->
    write_chunk fuel self chunk w = Some r ->
    write_chunk fuel' self chunk w = Some r.
Proof.
  induction fuel as [|fuel IH]; intros fuel' w r Hle; simpl; [discriminate|].
  destruct fuel' as [|fuel']; [lia|]. simpl.
  destruct (__next__ (the_session w)) as [[[[k tok] sess]|e]|]; try easy.
  destruct (cache_setitem tok chunk (the_cache w)) as [[u|e] c]; [easy|].
  destruct e; try easy.
  destruct (truthy data); apply IH; lia.
Qed.

Lemma write_chunks_mono (self : CacheWriter) (fuel fuel' : nat) :
  (fuel <= fuel')%nat ->
  forall (cs : list bytes) (w w' : world C) u,
    write_chunks fuel self cs w = Some (Ok u, w') ->
    write_chunks fuel' self cs w = Some (Ok u, w').
Proof.
  intros Hle cs. induction cs as [|chunk cs IH]; intros w w' u; simpl; [easy|].
  destruct (write_chunk fuel self chunk w) as [[[u1|e] w1]|] eqn:E; try easy.
  rewrite (write_chunk_mono _ _ _ _ _ _ Hle E). apply IH.
Qed.

(** A chunk's loop that ends well wrote that chunk once, at a step the
    session had not passed, and moved the session beyond it. *)
Lemma write_chunk_wrote (self : CacheWriter) (chunk : bytes) (fuel : nat) :
  forall (w w' : world C) u,
    write_chunk fuel self chunk w = Some (Ok u, w') ->
    exists new k,
      events w' = events w ++ new
      /\ wrote new = [(k, chunk)]
      /\ session.step (the_session w) <= k < session.step (the_session w')
      /\ port (the_session w') = port (the_session w)
      /\ max_step (the_session w') = max_step (the_session w).
Proof.
  induction fuel as [|fuel IH]; intros w w' u; simpl; [discriminate|].
  destruct (__next__ (the_session w)) as [[[[k tok] sess]|e]|] eqn:Hnext;
    try discriminate.
  destruct (next_yields _ _ _ _ Hnext) as (-> & _ & ->).
  destruct (cache_setitem tok chunk (the_cache w)) as [[u1|e] c].
  - intros [= <- <-]. simpl.
    exists [WriterChecking (session.step (the_session w)) tok;
            WroteData (session.step (the_session w)) chunk],
           (session.step (the_session w)).
    repeat split; [now rewrite <- app_assoc | lia | lia].
  - destruct e; try discriminate.
    destruct (truthy data); intros Hrun;
      destruct (IH _ _ _ Hrun) as (new & k & Hev & Hw & Hk & Hp & Hm);
      simpl in *.
    + exists (WriterChecking (session.step (the_session w)) tok
              :: WriterEncountered (session.step (the_session w)) (payload data)
              :: notify self (payload data) ++ new), k.
      repeat split; try lia; try congruence.
      * rewrite Hev, <- !app_assoc. reflexivity.
      * simpl. now rewrite wrote_app, wrote_notify.
    + exists (WriterChecking (session.step (the_session w)) tok :: new), k.
      repeat split; try lia; try congruence; try exact Hw.
      rewrite Hev, <- !app_assoc. reflexivity.
Qed.

(** The chunks of a run that ends well are written in order, each once,
    at steps that increase. *)
Lemma write_chunks_wrote (self : CacheWriter) (fuel : nat) (cs : list bytes) :
  forall (w w' : world C) u,
    write_chunks fuel self cs w = Some (Ok u, w') ->
    exists new,
      events w' = events w ++ new
      /\ map snd (wrote new) = cs
      /\ StronglySorted Z.lt (map fst (wrote new))
      /\ Forall (fun k => session.step (the_session w) <= k
                          < session.step (the_session w'))
                (map fst (wrote new))
      /\ session.step (the_session w) <= session.step (the_session w').
Proof.
  induction cs as [|chunk cs IH]; intros w w' u; simpl.
  - intros [= <- <-]. exists []. rewrite app_nil_r.
    repeat split; [constructor | constructor | lia].
  - destruct (write_chunk fuel self chunk w) as [[[u1|e] w1]|] eqn:E;
      try discriminate.
    intros Hrest.
    destruct (write_chunk_wrote _ _ _ _ _ _ E)
      as (new1 & k & Hev1 & Hw1 & Hk & _ & _).
    destruct (IH _ _ _ Hrest) as (new2 & Hev2 & Hw2 & Hsorted & Hrange & Hle).
    exists (new1 ++ new2). rewrite wrote_app, Hw1. simpl.
    split; [now rewrite Hev2, Hev1, <- app_assoc|].
    split; [now rewrite Hw2|].
    split; [|split; [|lia]].
    + constructor; [exact Hsorted|].
      eapply Forall_impl; [|exact Hrange]. simpl. intros; lia.
    + constructor; [lia|].
      eapply Forall_impl; [|exact Hrange]. simpl. intros; lia.
Qed.

Lemma write_chunks_live (self : CacheWriter) (p m : Z) :
  (forall (chunk : bytes) (w0 : world C),
      port (the_session w0) = p -> max_step (the_session w0) = m ->
      exists fuel w1, write_chunk fuel self chunk w0 = Some (Ok tt, w1)) ->
  forall (cs : list bytes) (w : world C),
    port (the_session w) = p -> max_step (the_session w) = m ->
    exists fuel w', write_chunks fuel self cs w = Some (Ok tt, w').
Proof.
  intros Hlive cs. induction cs as [|chunk cs IH]; intros w Hp Hm.
  - exists 0%nat, w. reflexivity.
  - destruct (Hlive chunk w Hp Hm) as (f1 & w1 & H1).
    destruct (write_chunk_wrote _ _ _ _ _ _ H1) as (_ & _ & _ & _ & _ & Hp1 & Hm1).
    destruct (IH w1 ltac:(congruence) ltac:(congruence)) as (f2 & w2 & H2).
    exists (Nat.max f1 f2), w2. simpl.
    rewrite (write_chunk_mono _ _ _ (Nat.max f1 f2) _ _ (Nat.le_max_l _ _) H1).
    exact (write_chunks_mono _ _ _ (Nat.le_max_r _ _) _ _ _ _ H2).
Qed.

(** C5, as the code has it. When the [set] of a chunk at the current
    token answers [AlreadyCached(v')], the writer calls every subscribed
    consumer with [v'] provided [v'] is a non-empty [bytes]; an empty or
    absent [v'] is handed to none.  Either way the session has advanced,
    and the same chunk is tried again at the next token. *)
Theorem collision_notifies_and_retries (fuel : nat) (self : CacheWriter)
    (chunk : bytes) (w : world C) (k : Z) (tok held : string)
    (sess : Session) (c : C) (v' : option bytes) :
  __next__ (the_session w) = Some (Ok ((k, tok), sess)) ->
  cache_setitem tok chunk (the_cache w)
  = (Raise (AlreadyCachedException held v'), c) ->
  let told :=
    if truthy v'
    then WriterEncountered k (payload v') :: notify self (payload v')
    else [] in
  write_chunk (S fuel) self chunk w
  = write_chunk fuel self chunk
      (mkWorld c sess ((events w ++ [WriterChecking k tok]) ++ told))
  /\ calls told
     = (if truthy v'
        then map (fun func => (func, payload v')) (_consumers self)
        else [])
  /\ session.step sess = k + 1
  /\ (forall tok2 sess2 c2 u,
        __next__ sess = Some (Ok ((k + 1, tok2), sess2)) ->
        cache_setitem tok2 chunk c = (Ok u, c2) ->
        write_chunk (S (S fuel)) self chunk w
        = Some (Ok tt,
                mkWorld c2 sess2
                  ((((events w ++ [WriterChecking k tok]) ++ told)
                    ++ [WriterChecking (k + 1) tok2])
                   ++ [WroteData (k + 1) chunk]))).
Proof.
  intros Hnext Hset told.
  assert (Hround : write_chunk (S fuel) self chunk w
                   = write_chunk fuel self chunk
                       (mkWorld c sess ((events w ++ [WriterChecking k tok]) ++ told))).
  { cbn [write_chunk]. rewrite Hnext, Hset. unfold told.
    destruct (truthy v'); [reflexivity | now rewrite app_nil_r]. }
  split; [exact Hround | split; [|split]].
  - unfold told. destruct (truthy v'); [|reflexivity].
    simpl. apply calls_notify.
  - now destruct (next_yields _ _ _ _ Hnext) as (-> & _ & ->).
  - intros tok2 sess2 c2 u Hnext2 Hset2.
    assert (Hround2 : write_chunk (S (S fuel)) self chunk w
                      = write_chunk (S fuel) self chunk
                          (mkWorld c sess
                             ((events w ++ [WriterChecking k tok]) ++ told))).
    { cbn [write_chunk]. rewrite Hnext, Hset. unfold told.
      destruct (truthy v'); [reflexivity | now rewrite app_nil_r]. }
    rewrite Hround2. cbn [write_chunk the_session the_cache events].
    now rewrite Hnext2, Hset2.
Qed.

(** The sets of two runs, one after the other. *)
Lemma sets_made_app (l1 l2 : list set_call) :
  forall (s : Session) (c c1 c2 : C),
    sets_made s c l1 c1 ->
    sets_made (set_step s (session.step s + Z.of_nat (List.length l1))) c1 l2 c2 ->
    sets_made s c (l1 ++ l2) c2.
Proof.
  induction l1 as [|x l1 IH]; intros s c c1 c2.
  - cbn [sets_made List.length app]. intros -> H.
    replace (set_step s (session.step s + Z.of_nat 0)) with s in H; [exact H|].
    destruct s as [p k m]. unfold set_step. cbn [port session.step max_step].
    f_equal. lia.
  - cbn [sets_made app]. intros (Hk & Htok & c0 & Hset & Hrest) H2.
    split; [exact Hk | split; [exact Htok|]].
    exists c0. split; [exact Hset|].
    apply (IH _ _ c1); [exact Hrest|].
    replace (set_step (set_step s (session.step s + 1))
               (session.step (set_step s (session.step s + 1))
                + Z.of_nat (List.length l1)))
      with (set_step s (session.step s + Z.of_nat (List.length (x :: l1))));
      [exact H2|].
    unfold set_step. cbn [port session.step max_step List.length].
    f_equal. lia.
Qed.

(** A chunk's loop that ends well asked the cache for one set per token it
    took, each of that chunk; what the log reports as written is what the
    cache took. *)
Lemma write_chunk_sets (self : CacheWriter) (chunk : bytes) (fuel : nat) :
  forall (w w' : world C) u,
    write_chunk fuel self chunk w = Some (Ok u, w') ->
    exists made : list set_call,
      sets_made (the_session w) (the_cache w) made (the_cache w')
      /\ the_session w'
         = set_step (the_session w)
             (session.step (the_session w) + Z.of_nat (List.length made))
      /\ wrote (events w')
         = wrote (events w)
           ++ map (fun x => (call_step x, call_chunk x)) (accepted made)
      /\ Forall (fun x => call_chunk x = chunk) made.
Proof.
  induction fuel as [|fuel IH]; intros w w' u; cbn [write_chunk]; [discriminate|].
  destruct (__next__ (the_session w)) as [[[[k tok] sess]|e]|] eqn:Hnext;
    try discriminate.
  destruct (next_yields _ _ _ _ Hnext) as (Hk & Htok & Hsess).
  destruct (cache_setitem tok chunk (the_cache w)) as [[u1|e] c] eqn:Hset.
  - intros [= <- <-]. exists [mkSetCall k tok chunk (Ok u1)].
    cbn [sets_made the_session the_cache events
         call_step call_token call_chunk call_answer].
    split; [|split; [|split]].
    + split; [exact Hk | split; [exact Htok|]].
      exists c. split; [exact Hset | reflexivity].
    + rewrite Hsess. reflexivity.
    + rewrite !wrote_app. cbn. now rewrite app_nil_r.
    + now constructor.
  - destruct e as [ | | | ? | ? | held data | ? | ]; try discriminate.
    assert (Hstep : forall (ev : list event) (made : list set_call),
               wrote ev = wrote (events w) ->
               sets_made sess c made (the_cache w') ->
               the_session w'
               = set_step sess (session.step sess + Z.of_nat (List.length made)) ->
               wrote (events w')
               = wrote ev
                 ++ map (fun x => (call_step x, call_chunk x)) (accepted made) ->
               Forall (fun x => call_chunk x = chunk) made ->
               exists made0 : list set_call,
                 sets_made (the_session w) (the_cache w) made0 (the_cache w')
                 /\ the_session w'
                    = set_step (the_session w)
                        (session.step (the_session w)
                         + Z.of_nat (List.length made0))
                 /\ wrote (events w')
                    = wrote (events w)
                      ++ map (fun x => (call_step x, call_chunk x))
                             (accepted made0)
                 /\ Forall (fun x => call_chunk x = chunk) made0).
    { intros ev made Hev Hmade Hs Hw Hall.
      exists (mkSetCall k tok chunk (Raise (AlreadyCachedException held data))
              :: made).
      split; [|split; [|split]].
      - cbn [sets_made call_step call_token call_chunk call_answer].
        split; [exact Hk | split; [exact Htok|]].
        exists c. split; [exact Hset|]. rewrite <- Hsess. exact Hmade.
      - rewrite Hs, Hsess. unfold set_step.
        cbn [port session.step max_step List.length]. f_equal. lia.
      - rewrite Hw, Hev. reflexivity.
      - constructor; [reflexivity | exact Hall]. }
    destruct (truthy data); intros Hrun;
      destruct (IH _ _ _ Hrun) as (made & Hmade & Hs & Hw & Hall);
      cbn [the_session the_cache events] in Hmade, Hs, Hw;
      refine (Hstep _ made _ Hmade Hs Hw Hall).
    + rewrite !wrote_app. cbn [wrote]. now rewrite wrote_notify, !app_nil_r.
    + rewrite wrote_app. cbn [wrote]. now rewrite app_nil_r.
Qed.

(** The same for the chunks of a run that ends well. *)
Lemma write_chunks_sets (self : CacheWriter) (fuel : nat) (cs : list bytes) :
  forall (w w' : world C) u,
    write_chunks fuel self cs w = Some (Ok u, w') ->
    exists made : list set_call,
      sets_made (the_session w) (the_cache w) made (the_cache w')
      /\ the_session w'
         = set_step (the_session w)
             (session.step (the_session w) + Z.of_nat (List.length made))
      /\ wrote (events w')
         = wrote (events w)
           ++ map (fun x => (call_step x, call_chunk x)) (accepted made)
      /\ Forall (fun x => In (call_chunk x) cs) made.
Proof.
  induction cs as [|chunk cs IH]; intros w w' u; cbn [write_chunks].
  - intros [= <- <-]. exists []. cbn [sets_made List.length accepted filter map].
    split; [reflexivity|]. split; [|split; [now rewrite app_nil_r | constructor]].
    destruct (the_session w) as [p k m]. unfold set_step.
    cbn [port session.step max_step]. f_equal. lia.
  - destruct (write_chunk fuel self chunk w) as [[[u1|e] w1]|] eqn:E;
      try discriminate.
    intros Hrest.
    destruct (write_chunk_sets _ _ _ _ _ _ E) as (m1 & Hm1 & Hs1 & Hw1 & Hall1).
    destruct (IH _ _ _ Hrest) as (m2 & Hm2 & Hs2 & Hw2 & Hall2).
    exists (m1 ++ m2). split; [|split; [|split]].
    + apply (sets_made_app _ _ _ _ (the_cache w1)); [exact Hm1|].
      rewrite <- Hs1. exact Hm2.
    + rewrite Hs2, Hs1. unfold set_step.
      cbn [port session.step max_step]. rewrite length_app, Nat2Z.inj_add.
      f_equal. lia.
    + rewrite Hw2, Hw1. unfold accepted.
      now rewrite filter_app, map_app, app_assoc.
    + apply Forall_app. split.
      * eapply Forall_impl; [|exact Hall1]. cbn beta. intros x ->. now left.
      * eapply Forall_impl; [|exact Hall2]. cbn beta. intros x Hx. now right.
Qed.

(** C7. Chunking and return value: with a positive [chunk_size], [write]
    cuts [data] into [ceil(len(data)/chunk_size)] consecutive chunks of at
    most [chunk_size] bytes.  A call that returns has asked the cache for
    one [set] per token the session yielded, each carrying one of the
    chunks, and the cache it leaves is the cache those sets left; the sets
    the cache took carry exactly the chunks, in the order of the input and
    at steps that increase, they are what the log reports as written, and
    the call returns [len(data)].  The call does return when every chunk's
    loop reaches a [set] that is taken; and 2500 bytes in chunks of 1000
    are written as 1000, 1000 and 500 bytes. *)
Theorem write_chunks_in_order (self : CacheWriter) (data : bytes) :
  0 < chunk_size self ->
  exists cs : list bytes,
    chunks (chunk_size self) data = Ok cs
    /\ (let n := Z.of_nat (List.length cs) in
        n = (len data + chunk_size self - 1) / chunk_size self
        /\ len data <= n * chunk_size self < len data + chunk_size self)
    /\ Forall (fun chunk => len chunk <= chunk_size self) cs
    /\ List.concat cs = data
    /\ (forall (fuel : nat) (w w' : world C) (n : Z),
          write fuel self data w = Some (Ok n, w') ->
          n = len data
          /\ exists (new : list event) (made : list set_call),
               events w' = events w ++ new
               /\ map snd (wrote new) = cs
               /\ StronglySorted Z.lt (map fst (wrote new))
               /\ sets_made (the_session w) (the_cache w) made (the_cache w')
               /\ map call_chunk (accepted made) = cs
               /\ StronglySorted Z.lt (map call_step (accepted made))
               /\ map (fun x => (call_step x, call_chunk x)) (accepted made)
                  = wrote new
               /\ Forall (fun x => In (call_chunk x) cs) made
               /\ the_session w'
                  = set_step (the_session w)
                      (session.step (the_session w)
                       + Z.of_nat (List.length made)))
    /\ (forall w : world C,
          (forall (chunk : bytes) (w0 : world C),
              port (the_session w0) = port (the_session w) ->
              max_step (the_session w0) = max_step (the_session w) ->
              exists fuel w1,
                write_chunk fuel self chunk w0 = Some (Ok tt, w1)) ->
          exists fuel w', write fuel self data w = Some (Ok (len data), w'))
    /\ (len data = 2500 -> chunk_size self = 1000 ->
        map len cs = [1000; 1000; 500]).
Proof.
  intros Hcs.
  destruct (chunk_facts.chunk_count (chunk_size self) (len data) Hcs
              ltac:(unfold len; lia)) as [Hn0 Hn].
  set (n := (len data + chunk_size self - 1) / chunk_size self) in *.
  exists (chop (Z.to_nat n) (Z.to_nat (chunk_size self)) data).
  pose proof (chunk_facts.chunks_chop (chunk_size self) data Hcs) as Hchunks.
  fold n in Hchunks.
  split; [exact Hchunks|]. split; [|split; [|split; [|split; [|split]]]].
  - cbv zeta. unfold bytes.
    rewrite chunk_facts.length_chop, Z2Nat.id by exact Hn0.
    split; [reflexivity | exact Hn].
  - eapply Forall_impl; [|apply chunk_facts.chop_bounded].
    simpl. unfold len. intros; lia.
  - apply chunk_facts.concat_chop. unfold len in *. nia.
  - intros fuel w w' r. unfold write. rewrite Hchunks.
    destruct (write_chunks fuel self _ w) as [[[u|e] w1]|] eqn:E;
      try discriminate.
    intros [= <- <-]. split; [reflexivity|].
    destruct (write_chunks_wrote _ _ _ _ _ _ E) as (new & Hev & Hw & Hs & _).
    destruct (write_chunks_sets _ _ _ _ _ _ E)
      as (made & Hmade & Hsess & Hwrote & Hall).
    assert (Hnew : map (fun x => (call_step x, call_chunk x)) (accepted made)
                   = wrote new).
    { rewrite Hev, wrote_app in Hwrote. apply app_inv_head in Hwrote.
      now symmetry. }
    exists new, made.
    split; [exact Hev | split; [exact Hw | split; [exact Hs|]]].
    split; [exact Hmade | split; [|split; [|split; [exact Hnew|]]]].
    + rewrite <- Hw, <- Hnew, map_map. reflexivity.
    + rewrite <- Hnew, map_map in Hs. exact Hs.
    + split; [exact Hall | exact Hsess].
  - intros w Hlive. unfold write. rewrite Hchunks.
    destruct (write_chunks_live self _ _ Hlive
                (chop (Z.to_nat n) (Z.to_nat (chunk_size self)) data) w
                eq_refl eq_refl) as (fuel & w' & Hrun).
    exists fuel, w'. now rewrite Hrun.
  - intros Hlen Hsize.
    assert (Hmap : forall l : list (list byte),
               map len l = map Z.of_nat (map (@List.length byte) l))
      by (intros l; now rewrite map_map).
    rewrite Hmap, chunk_facts.chop_lengths.
    subst n. rewrite Hlen, Hsize.
    replace (List.length data) with 2500%nat by (unfold len in Hlen; lia).
    vm_compute. reflexivity.
Qed.
End WriterFacts.

(** C5, as stated, fails: a colliding value that is the empty [bytes] is
    handed to no subscriber. *)
Lemma empty_collision_not_delivered :
  ~ (forall (su : session.Shortuuid) (C : Type) (cl : io.CacheLike C)
            (fuel : nat) (self : io.CacheWriter) (chunk : bytes)
            (w : io.world C) (k : Z) (tok held : string)
            (sess : session.Session) (c : C) (v' : bytes),
        session.__next__ (io.the_session w) = Some (Ok ((k, tok), sess)) ->
        io.cache_setitem tok chunk (io.the_cache w)
        = (Raise (AlreadyCachedException held (Some v')), c) ->
        forall r (w' : io.world C),
          io.write_chunk (S fuel) self chunk w = Some (r, w') ->
          forall func : io.consumer,
            In func (io._consumers self) ->
            In (func, v') (io.calls (io.events w'))).
Proof.
  intros H.
  specialize (H stub.shortuuid _ stub.store_cache 1%nat
                (io.mkCacheWriter 1024 [0%nat; 1%nat]) stub.peer_data
                (stub.channel7 [(stub.token0, Some [])]) 0 stub.token0
                stub.token0 (session.mkSession 7 1 65535)
                [(stub.token0, Some [])] [] eq_refl eq_refl).
  specialize (H _ _ eq_refl 0%nat ltac:(simpl; auto)).
  vm_compute in H. exact H.
Qed.

Lemma collision_notifies_and_retries_witness :
  @io.write_chunk stub.shortuuid _ stub.store_cache 2
     (io.mkCacheWriter 1024 [0%nat; 1%nat]) [x41]
     (stub.channel7 [(stub.token0, Some stub.peer_data)])
  = Some (Ok tt,
          io.mkWorld [(stub.token0, Some stub.peer_data); (stub.token1, Some [x41])]
            (session.mkSession 7 2 65535)
            [io.WriterChecking 0 stub.token0;
             io.WriterEncountered 0 stub.peer_data;
             io.Call 0%nat stub.peer_data; io.Call 1%nat stub.peer_data;
             io.WriterChecking 1 stub.token1; io.WroteData 1 [x41]]).
Proof.
  exact (proj2 (proj2 (proj2
           (@collision_notifies_and_retries stub.shortuuid _ stub.store_cache
              0%nat (io.mkCacheWriter 1024 [0%nat; 1%nat]) [x41]
              (stub.channel7 [(stub.token0, Some stub.peer_data)])
              0 stub.token0 stub.token0 (session.mkSession 7 1 65535)
              [(stub.token0, Some stub.peer_data)] (Some stub.peer_data)
              eq_refl eq_refl)))
           stub.token1 (session.mkSession 7 2 65535)
           [(stub.token0, Some stub.peer_data); (stub.token1, Some [x41])] tt
           eq_refl eq_refl).
Defined.

(** The recording backend takes every set it is asked, and holds them in
    the order they were made. *)
Lemma recorder_sets_made {su : session.Shortuuid} (made : list io.set_call) :
  forall (s : session.Session) (c c' : list (string * bytes)),
    io.sets_made (cl := stub.recorder) s c made c' ->
    c' = c ++ map (fun x => (io.call_token x, io.call_chunk x)) made
    /\ io.accepted made = made.
Proof.
  induction made as [|x made IH]; intros s c c'; cbn [io.sets_made].
  - intros ->. now rewrite app_nil_r.
  - intros (_ & _ & c1 & Hset & Hrest).
    cbn [io.cache_setitem stub.recorder] in Hset. injection Hset as Hans <-.
    destruct (IH _ _ _ Hrest) as [-> Hacc]. split.
    + cbn [map]. now rewrite <- app_assoc.
    + unfold io.accepted in *. cbn [filter]. rewrite <- Hans. now rewrite Hacc.
Qed.

Lemma write_chunks_in_order_witness :
  0 < 1000
  /\ exists fuel w',
       @io.write stub.shortuuid _ stub.recorder fuel
          (io.mkCacheWriter 1000 []) (repeat x00 2500) (stub.channel7 [])
       = Some (Ok 2500, w')
       /\ map io.len (map snd (io.wrote (io.events w'))) = [1000; 1000; 500]
       /\ map (fun p => io.len (snd p)) (io.the_cache w') = [1000; 1000; 500]
       /\ map fst (io.the_cache w') = [stub.token0; stub.token1; "4VDL"].
Proof.
  assert (Hcs : 0 < io.chunk_size (io.mkCacheWriter 1000 [])) by (simpl; lia).
  split; [exact Hcs|].
  destruct (@write_chunks_in_order stub.shortuuid _ stub.recorder
              (io.mkCacheWriter 1000 []) (repeat x00 2500) Hcs)
    as (cs & _ & _ & _ & _ & Hwrote & Hlive & Hsizes).
  destruct (Hlive (stub.channel7 [])) as (fuel & w' & Hrun).
  { intros chunk w0 Hp Hm.
    destruct (@token_defined stub.shortuuid (io.the_session w0))
      as (t & _ & Htok);
      [rewrite Hp; simpl; lia | rewrite Hm; simpl; lia
       | vm_compute; discriminate |].
    exists 1%nat. eexists. cbn [io.write_chunk]. unfold session.__next__.
    rewrite Htok. reflexivity. }
  exists fuel, w'. split; [exact Hrun|].
  destruct (Hwrote fuel _ _ _ Hrun)
    as (_ & new & made & Hev & Hsnd & _ & Hmade & Hchunks & _).
  specialize (Hsizes eq_refl eq_refl).
  destruct (recorder_sets_made made _ _ _ Hmade) as [Hcache Hacc].
  rewrite Hacc in Hchunks. rewrite Hcache.
  cbn [app io.the_cache stub.channel7].
  split; [rewrite Hev; cbn [io.events stub.channel7 app]; now rewrite Hsnd|].
  split; [rewrite map_map; cbn [snd]; rewrite <- Hsizes, <- Hchunks, map_map;
          reflexivity|].
  rewrite map_map. cbn [fst].
  rewrite <- Hchunks in Hsizes.
  destruct made as [|[k0 t0 ch0 a0] [|[k1 t1 ch1 a1] [|[k2 t2 ch2 a2] [|x3 made]]]];
    try discriminate Hsizes.
  cbn [io.sets_made io.call_token] in Hmade.
  destruct Hmade as (_ & Ht0 & c1 & _ & _ & Ht1 & c2 & _ & _ & Ht2 & _).
  vm_compute in Ht0. vm_compute in Ht1. vm_compute in Ht2.
  injection Ht0 as <-. injection Ht1 as <-. injection Ht2 as <-.
  reflexivity.
Defined.

(** The chunking scenario on the recording backend: three sets, all taken,
    at steps 0, 1 and 2 and under the tokens of those steps, of 1000, 1000
    and 500 bytes. *)
Example chunking_scenario :
  option_map
    (fun out => (fst out,
                 map (fun p => (fst p, io.len (snd p)))
                     (io.wrote (io.events (snd out))),
                 map (fun p => (fst p, io.len (snd p)))
                     (io.the_cache (snd out))))
    (@io.write stub.shortuuid _ stub.recorder 1
       (io.mkCacheWriter 1000 []) (repeat x00 2500) (stub.channel7 []))
  = Some (Ok 2500, [(0, 1000); (1, 1000); (2, 500)],
          [(stub.token0, 1000); (stub.token1, 1000); ("4VDL", 500)]).
Proof. vm_compute. reflexivity. Qed.

(* ================================================================== *)
(** * Further facts: session *)

Section SessionMore.
Import session.
Context {su : Shortuuid}.

Lemma bit_length_bound (m : Z) : 0 < m -> 0 <= bit_length m /\ m < 2 ^ bit_length m.
Proof.
  intros Hm. unfold bit_length.
  destruct (m =? 0) eqn:E; [apply Z.eqb_eq in E; lia|].
  rewrite Z.abs_eq by lia.
  pose proof (Z.log2_nonneg m). pose proof (Z.log2_spec m Hm).
  split; [lia|]. replace (Z.log2 m + 1) with (Z.succ (Z.log2 m)) by lia. lia.
Qed.

(** The number packed from a channel and a step is negative for a negative
    channel. *)
Lemma packed_negative (channel step max_step : Z) :
  channel < 0 -> 0 < max_step ->
  Z.shiftl channel (bit_length max_step) + step mod max_step < 0.
Proof.
  intros Hc Hm. destruct (bit_length_bound max_step Hm) as [Hb Hlt].
  rewrite Z.shiftl_mul_pow2 by exact Hb.
  pose proof (Z.mod_pos_bound step max_step Hm).
  assert (0 < 2 ^ bit_length max_step) by (apply Z.pow_pos_nonneg; lia).
  nia.
Qed.

(** A session on a negative channel has no token: the digit loop of
    [int_to_string] runs on a negative number and never reaches zero,
    whatever the number of rounds it is given. *)
Theorem negative_channel_never_yields (channel step max_step : Z) :
  channel < 0 -> 0 < max_step -> 1 <= str_len get_alphabet ->
  (forall (fuel : nat) (output : string),
      int_to_string_loop fuel
        (Z.shiftl channel (bit_length max_step) + step mod max_step)
        get_alphabet output = None)
  /\ token (mkSession channel step max_step) = None
  /\ __next__ (mkSession channel step max_step) = None.
Proof.
  intros Hc Hm Ha.
  pose proof (packed_negative channel step max_step Hc Hm) as Hneg.
  assert (Hloop : forall fuel output,
             int_to_string_loop fuel
               (Z.shiftl channel (bit_length max_step) + step mod max_step)
               get_alphabet output = None).
  { intros fuel output. apply session_facts.int_to_string_loop_diverges.
    left. split; assumption. }
  assert (Htok : token (mkSession channel step max_step) = None).
  { rewrite token_of_number by (simpl; lia). simpl.
    unfold int_to_string. now rewrite Hloop. }
  split; [exact Hloop | split; [exact Htok|]].
  unfold __next__. now rewrite Htok.
Qed.

Lemma spell_injective (alphabet : string) :
  NoDup (list_ascii_of_string alphabet) ->
  forall ds es : list Z,
    Forall (fun d => 0 <= d < str_len alphabet) ds ->
    Forall (fun d => 0 <= d < str_len alphabet) es ->
    spell alphabet ds = spell alphabet es -> ds = es.
Proof.
  intros Hnd ds. unfold spell.
  induction ds as [|d ds IH]; intros [|e es] Hds Hes H; simpl in H;
    try discriminate; [reflexivity|].
  injection H as Hhd Htl.
  inversion Hds as [|? ? Hd Hds']; inversion Hes as [|? ? He Hes']; subst.
  f_equal; [|now apply IH].
  unfold str_len in *.
  rewrite <- length_list_ascii_of_string in Hd, He.
  apply (proj1 (NoDup_nth _ Ascii.zero) Hnd) in Hhd; lia.
Qed.

Lemma alphabet_numeral_injective (alphabet : string) (n1 n2 : Z) (w : string) :
  NoDup (list_ascii_of_string alphabet) ->
  alphabet_numeral alphabet n1 w -> alphabet_numeral alphabet n2 w -> n1 = n2.
Proof.
  intros Hnd (ds & Hw1 & Hv1 & Hr1 & _) (es & Hw2 & Hv2 & Hr2 & _).
  rewrite Hw1 in Hw2. apply (spell_injective alphabet Hnd) in Hw2; try assumption.
  congruence.
Qed.

(** [int_to_string] is one to one on the non-negative numbers when no
    character occurs twice in the alphabet: two numbers with the same
    numeral are equal. *)
Theorem int_to_string_injective (alphabet : string) (n1 n2 : Z) (w : string) :
  NoDup (list_ascii_of_string alphabet) -> 2 <= str_len alphabet ->
  0 <= n1 -> 0 <= n2 ->
  int_to_string n1 alphabet None = Some (Ok w) ->
  int_to_string n2 alphabet None = Some (Ok w) ->
  n1 = n2.
Proof.
  intros Hnd Ha H1 H2 Hw1 Hw2.
  destruct (session_facts.int_to_string_spec alphabet n1 Ha H1) as (w1 & E1 & N1).
  destruct (session_facts.int_to_string_spec alphabet n2 Ha H2) as (w2 & E2 & N2).
  rewrite Hw1 in E1. rewrite Hw2 in E2.
  injection E1 as <-. injection E2 as <-.
  exact (alphabet_numeral_injective alphabet n1 n2 w Hnd N1 N2).
Qed.



Lemma str_len_app (a b : string) : str_len (a ++ b)%string = str_len a + str_len b.
Proof.
  unfold str_len. induction a as [|c a IH]; simpl String.length; [lia|].
  rewrite !Nat2Z.inj_succ. simpl in IH. lia.
Qed.

Lemma str_len_rev (s : string) : str_len (str_rev s) = str_len s.
Proof.
  unfold str_len, str_rev.
  now rewrite <- !length_list_ascii_of_string,
    list_ascii_of_string_of_list_ascii, length_rev.
Qed.

Lemma str_len_repeat (c : ascii) (n : Z) : str_len (str_repeat c n) = Z.max n 0.
Proof.
  unfold str_len, str_repeat.
  rewrite <- length_list_ascii_of_string, list_ascii_of_string_of_list_ascii,
    repeat_length. lia.
Qed.

Lemma str_rev_app_repeat (s : string) (c : ascii) (n : Z) :
  str_rev (s ++ str_repeat c n)%string = (str_repeat c n ++ str_rev s)%string.
Proof.
  unfold str_rev, str_repeat.
  rewrite list_ascii_of_string_app, list_ascii_of_string_of_list_ascii,
    rev_app_distr, string_of_list_ascii_app.
  f_equal. f_equal. clear. induction (Z.to_nat n) as [|k IH]; [reflexivity|].
  simpl. rewrite IH. clear. induction k; simpl; congruence.
Qed.

Lemma int_to_string_unpadded (number : Z) (alphabet w : string) :
  int_to_string number alphabet None = Some (Ok w) ->
  exists output,
    int_to_string_loop (loop_bound number) number alphabet EmptyString
    = Some (Ok output)
    /\ w = str_rev output.
Proof.
  unfold int_to_string.
  destruct (int_to_string_loop _ _ _ _) as [[output|e]|]; simpl; try discriminate.
  intros [= <-]. now exists output.
Qed.

(** Padding: with a non-empty alphabet, [int_to_string(number, alphabet,
    padding)] is the unpadded numeral with copies of [alphabet[0]] in front
    up to [padding] characters; a numeral already that long, and a padding
    of zero or less, get none. *)
Theorem int_to_string_padding (number padding : Z) (alphabet w : string) :
  1 <= str_len alphabet ->
  int_to_string number alphabet None = Some (Ok w) ->
  exists c : ascii,
    str_getitem alphabet 0 = Ok c
    /\ int_to_string number alphabet (Some padding)
       = Some (Ok (str_repeat c (padding - str_len w) ++ w)%string)
    /\ str_len (str_repeat c (padding - str_len w) ++ w)%string
       = Z.max (str_len w) padding.
Proof.
  intros Ha Hw.
  destruct (int_to_string_unpadded _ _ _ Hw) as (output & Hloop & ->).
  exists (nth 0 (list_ascii_of_string alphabet) Ascii.zero).
  assert (Hc : str_getitem alphabet 0
               = Ok (nth 0 (list_ascii_of_string alphabet) Ascii.zero))
    by (apply (str_getitem_in_range alphabet 0); lia).
  split; [exact Hc | split].
  - unfold int_to_string. rewrite Hloop. simpl. rewrite str_len_rev.
    destruct (padding =? 0) eqn:E.
    + apply Z.eqb_eq in E. subst padding.
      replace (str_repeat _ (0 - str_len output)) with EmptyString; [reflexivity|].
      unfold str_repeat. pose proof (Nat2Z.is_nonneg (String.length output)).
      unfold str_len. now replace (Z.to_nat (0 - Z.of_nat (String.length output)))
        with 0%nat by lia.
    + rewrite Hc, str_rev_app_repeat.
      do 3 f_equal. unfold str_repeat. f_equal. f_equal. lia.
  - rewrite str_len_app, str_len_repeat. lia.
Qed.
End SessionMore.

Lemma negative_channel_never_yields_witness :
  -1 < 0 /\ 0 < 65535
  /\ @session.token stub.shortuuid (session.mkSession (-1) 0 65535) = None.
Proof.
  assert (Hc : -1 < 0) by lia.
  assert (Hm : 0 < 65535) by lia.
  assert (Ha : 1 <= str_len (@session.get_alphabet stub.shortuuid))
    by (vm_compute; discriminate).
  split; [exact Hc | split; [exact Hm|]].
  exact (proj1 (proj2 (@negative_channel_never_yields stub.shortuuid
                         (-1) 0 65535 Hc Hm Ha))).
Defined.

Lemma default_alphabet_NoDup : NoDup (list_ascii_of_string session.default_alphabet).
Proof.
  assert (H : nodup ascii_dec (list_ascii_of_string session.default_alphabet)
              = list_ascii_of_string session.default_alphabet)
    by (vm_compute; reflexivity).
  rewrite <- H. apply NoDup_nodup.
Defined.

Lemma int_to_string_injective_witness :
  session.int_to_string 458752 session.default_alphabet None = Some (Ok "4VDJ")
  /\ 458752 = 458752.
Proof.
  split; [reflexivity|].
  assert (Ha : 2 <= str_len session.default_alphabet) by (vm_compute; discriminate).
  exact (int_to_string_injective session.default_alphabet 458752 458752 "4VDJ"
           default_alphabet_NoDup Ha ltac:(lia) ltac:(lia) eq_refl eq_refl).
Defined.


Lemma int_to_string_padding_witness :
  session.int_to_string 57 session.default_alphabet (Some 5) = Some (Ok "22232").
Proof.
  assert (Ha : 1 <= str_len session.default_alphabet) by (vm_compute; discriminate).
  destruct (int_to_string_padding 57 5 session.default_alphabet "32" Ha eq_refl)
    as (c & Hc & Hpad & _).
  vm_compute in Hc. injection Hc as <-. exact Hpad.
Defined.

(* ================================================================== *)
(** * Further facts: cache *)

Section CacheMore.
Import cache cache_facts.
Context {lib : UrlLib} {Net : Type} {tr : Transport Net}.

(** An error status wins over everything else: when the response carries
    a 4xx or 5xx status, [get] and [set] raise [HTTPError] whatever the
    [X-Cache-Status] header and the body are, and nothing is extracted. *)
Theorem http_error_propagates (self : Cache) (k : string) (value : bytes)
    (net net' : Net) (r : Response) :
  400 <= status_code r < 600 ->
  (requests_get (url self) (getitem_query self k) (proxy self) net = (Ok r, net') ->
   __getitem__ self k net = (Raise (HTTPError (status_code r)), net'))
  /\ (requests_get (url self) (setitem_query self k value) (proxy self) net
      = (Ok r, net') ->
      __setitem__ self k value net = (Raise (HTTPError (status_code r)), net')).
Proof.
  intros Hs.
  assert (E : raise_for_status r = Raise (HTTPError (status_code r))).
  { unfold raise_for_status.
    destruct (400 <=? status_code r) eqn:E1; [|apply Z.leb_gt in E1; lia].
    destruct (status_code r <? 600) eqn:E2; [|apply Z.ltb_ge in E2; lia].
    reflexivity. }
  split; intros H.
  - unfold __getitem__. rewrite H. simpl. unfold getitem_response. now rewrite E.
  - unfold __setitem__. rewrite H. simpl. unfold setitem_response. now rewrite E.
Qed.

Lemma extract_loop_skips (self : Cache) (body : string) failing rest :
  Forall (fun span => snip_fails self
                        (str_slice body (fst span + 35) (snd span - 7))) failing ->
  extract_loop self body (failing ++ rest) = extract_loop self body rest.
Proof.
  induction 1 as [|[a b] failing Hfail _ IH]; [reflexivity|].
  simpl. apply snip_fails_iff in Hfail. destruct Hfail as [e He].
  simpl in He. rewrite He, (parse_snip_raises _ _ _ He). exact IH.
Qed.

(** [_extract] returns the payload of the first match that parses: the
    matches before it that fail are passed over, the matches after it are
    not looked at. *)
Theorem extract_first_parseable (self : Cache) (k : string) (r : Response)
    (failing rest : list (Z * Z)) (a b : Z) (d : bytes) :
  re_finditer ("No results for (.*)" ++ k ++ "(.*)</code>")%string (text r)
  = failing ++ (a, b) :: rest ->
  Forall (fun span => snip_fails self
                        (str_slice (text r) (fst span + 35) (snd span - 7)))
         failing ->
  parse_snip self (str_slice (text r) (a + 35) (b - 7)) = Ok d ->
  _extract self k r = Ok (Some d).
Proof.
  intros Hm Hfail Hd. unfold _extract.
  rewrite Hm, (extract_loop_skips _ _ _ _ Hfail). simpl. now rewrite Hd.
Qed.

(** What a request carries when the two argument names differ: a [set]
    sends the token under the keyed argument and the encoded data under the
    reflected one; a [get] sends the token, and the reflected argument only
    if the url itself has it; every other argument of the url is sent as
    the url has it. *)
Theorem request_arguments (self : Cache) (k : string) (value : bytes) :
  key self <> slot self ->
  let base := dict_of_pairs
                (map (fun kv => (fst kv, QStr (snd kv)))
                     (parse_qsl (url_query self))) in
  dict_get (setitem_query self k value) (key self) = Some (QStr k)
  /\ dict_get (setitem_query self k value) (slot self)
     = Some (QBytes (base64.urlsafe_b64encode value))
  /\ dict_get (getitem_query self k) (key self) = Some (QStr k)
  /\ dict_get (getitem_query self k) (slot self) = dict_get base (slot self)
  /\ (forall other : string,
        other <> key self -> other <> slot self ->
        dict_get (setitem_query self k value) other = dict_get base other
        /\ dict_get (getitem_query self k) other = dict_get base other).
Proof.
  intros Hne base. unfold setitem_query, getitem_query. fold base.
  repeat split.
  - rewrite dict_get_setitem_other by congruence. apply dict_get_setitem_same.
  - apply dict_get_setitem_same.
  - apply dict_get_setitem_same.
  - now apply dict_get_setitem_other.
  - rewrite !dict_get_setitem_other by congruence. reflexivity.
  - rewrite !dict_get_setitem_other by congruence. reflexivity.
Qed.
End CacheMore.

Section OverHttp.
Import session cache cache_facts io.
Context {su : Shortuuid} {lib : UrlLib} {Net : Type} {tr : Transport Net}.

(** A collision with a page that holds no payload: the [set] raises
    [AlreadyCachedException] with no data, and a writer over the HTTP cache
    calls no consumer, leaves the token behind and sends the same chunk
    under the next token; when the response to that request is a MISS the
    chunk is written there, no consumer having been called. *)
Theorem collision_without_payload (self : Cache) (wr : CacheWriter)
    (fuel : nat) (chunk : bytes) (w : world Net) (k : Z) (tok : string)
    (sess : Session) (net' : Net) (r : Response) :
  __next__ (the_session w) = Some (Ok ((k, tok), sess)) ->
  requests_get (url self) (setitem_query self tok chunk) (proxy self) (the_cache w)
  = (Ok r, net') ->
  200 <= status_code r < 300 -> is_hit r = true -> no_payload self tok r ->
  __setitem__ self tok chunk (the_cache w)
  = (Raise (AlreadyCachedException tok None), net')
  /\ write_chunk (cl := Cache_CacheLike self) (S fuel) wr chunk w
     = write_chunk (cl := Cache_CacheLike self) fuel wr chunk
         (mkWorld net' sess (events w ++ [WriterChecking k tok]))
  /\ session.step sess = k + 1
  /\ (forall (tok2 : string) (sess2 : Session) (net2 : Net) (r2 : Response),
        __next__ sess = Some (Ok ((k + 1, tok2), sess2)) ->
        requests_get (url self) (setitem_query self tok2 chunk) (proxy self) net'
        = (Ok r2, net2) ->
        200 <= status_code r2 < 300 -> is_hit r2 = false ->
        write_chunk (cl := Cache_CacheLike self) (S (S fuel)) wr chunk w
        = Some (Ok tt,
                mkWorld net2 sess2
                  (((events w ++ [WriterChecking k tok])
                    ++ [WriterChecking (k + 1) tok2])
                   ++ [WroteData (k + 1) chunk]))).
Proof.
  intros Hnext Hget Hok Hhit Hnone.
  assert (Hset : __setitem__ self tok chunk (the_cache w)
                 = (Raise (AlreadyCachedException tok None), net')).
  { unfold __setitem__. rewrite Hget. simpl. unfold setitem_response.
    rewrite (raise_for_status_2xx r Hok). simpl. rewrite Hhit.
    now rewrite (extract_no_payload _ _ _ Hnone). }
  assert (Hround : forall f : nat,
             write_chunk (cl := Cache_CacheLike self) (S f) wr chunk w
             = write_chunk (cl := Cache_CacheLike self) f wr chunk
                 (mkWorld net' sess (events w ++ [WriterChecking k tok]))).
  { intros f. cbn [write_chunk]. rewrite Hnext.
    cbn [cache_setitem Cache_CacheLike]. rewrite Hset. reflexivity. }
  split; [exact Hset | split; [apply Hround | split]].
  - now destruct (next_yields _ _ _ _ Hnext) as (-> & _ & ->).
  - intros tok2 sess2 net2 r2 Hnext2 Hget2 Hok2 Hmiss2.
    rewrite Hround. cbn [write_chunk the_session the_cache events].
    rewrite Hnext2. cbn [cache_setitem Cache_CacheLike].
    unfold __setitem__. rewrite Hget2. cbn [bind]. unfold setitem_response.
    rewrite (raise_for_status_2xx r2 Hok2). cbn [bind]. rewrite Hmiss2.
    reflexivity.
Qed.

(** A reader over the HTTP cache passes over a cached page that holds no
    payload, such as the page its own probe of a fresh token left behind,
    and asks for the next token: when the response to that request is a
    MISS the call returns 0 there, and when it is a cached page reflecting
    a non-empty payload the call returns that payload (here into a
    bytearray). *)
Theorem reader_skips_blank_page (self : Cache) (fuel : nat) (b : buffer)
    (w : world Net) (k : Z) (tok : string) (sess : Session) (net' : Net)
    (r : Response) :
  __next__ (the_session w) = Some (Ok ((k, tok), sess)) ->
  requests_get (url self) (getitem_query self tok) (proxy self) (the_cache w)
  = (Ok r, net') ->
  200 <= status_code r < 300 -> is_hit r = true -> no_payload self tok r ->
  readinto (cl := Cache_CacheLike self) (S fuel) b w
  = readinto (cl := Cache_CacheLike self) fuel b
      (mkWorld net' sess (events w ++ [ReaderChecking k tok]))
  /\ session.step sess = k + 1
  /\ (forall (tok2 : string) (sess2 : Session) (net2 : Net) (r2 : Response),
        __next__ sess = Some (Ok ((k + 1, tok2), sess2)) ->
        requests_get (url self) (getitem_query self tok2) (proxy self) net'
        = (Ok r2, net2) ->
        200 <= status_code r2 < 300 -> is_hit r2 = false ->
        readinto (cl := Cache_CacheLike self) (S (S fuel)) b w
        = Some (Ok 0, b,
                mkWorld net2 sess2
                  (((events w ++ [ReaderChecking k tok])
                    ++ [ReaderChecking (k + 1) tok2]) ++ [NotCached (k + 1)])))
  /\ (forall (tok2 : string) (sess2 : Session) (net2 : Net) (r2 : Response)
             (prior d : bytes),
        __next__ sess = Some (Ok ((k + 1, tok2), sess2)) ->
        requests_get (url self) (getitem_query self tok2) (proxy self) net'
        = (Ok r2, net2) ->
        200 <= status_code r2 < 300 -> is_hit r2 = true ->
        reflects self tok2 r2
          (string_of_list_byte (base64.urlsafe_b64encode d)) ->
        d <> [] ->
        b = Bytearray prior ->
        readinto (cl := Cache_CacheLike self) (S (S fuel)) b w
        = Some (Ok (len d), Bytearray d,
                mkWorld net2 sess2
                  (((events w ++ [ReaderChecking k tok])
                    ++ [ReaderChecking (k + 1) tok2]) ++ [ReadData (k + 1) d]))).
Proof.
  intros Hnext Hget Hok Hhit Hnone.
  assert (Hitem : __getitem__ self tok (the_cache w) = (Ok None, net')).
  { unfold __getitem__. rewrite Hget. simpl. unfold getitem_response.
    rewrite (raise_for_status_2xx r Hok). simpl. rewrite Hhit. simpl.
    now rewrite (extract_no_payload _ _ _ Hnone). }
  assert (Hround : forall f : nat,
             readinto (cl := Cache_CacheLike self) (S f) b w
             = readinto (cl := Cache_CacheLike self) f b
                 (mkWorld net' sess (events w ++ [ReaderChecking k tok]))).
  { intros f. cbn [readinto]. rewrite Hnext.
    cbn [cache_getitem Cache_CacheLike]. rewrite Hitem. reflexivity. }
  split; [apply Hround | split; [|split]].
  - now destruct (next_yields _ _ _ _ Hnext) as (-> & _ & ->).
  - intros tok2 sess2 net2 r2 Hnext2 Hget2 Hok2 Hmiss2.
    rewrite Hround. cbn [readinto the_session the_cache events].
    rewrite Hnext2. cbn [cache_getitem Cache_CacheLike].
    unfold __getitem__. rewrite Hget2. cbn [bind]. unfold getitem_response.
    rewrite (raise_for_status_2xx r2 Hok2). cbn [bind]. rewrite Hmiss2.
    reflexivity.
  - intros tok2 sess2 net2 r2 prior d Hnext2 Hget2 Hok2 Hhit2 Hrefl Hd ->.
    rewrite Hround. cbn [readinto the_session the_cache events].
    rewrite Hnext2. cbn [cache_getitem Cache_CacheLike].
    unfold __getitem__. rewrite Hget2. cbn [bind]. unfold getitem_response.
    rewrite (raise_for_status_2xx r2 Hok2). cbn [bind]. rewrite Hhit2.
    cbn [negb]. rewrite (extract_reflected _ _ _ _ Hrefl).
    now rewrite (truthy_nonempty d Hd).
Qed.
End OverHttp.

(* ================================================================== *)
(** * Further facts: the target check *)

Section CheckFacts.
Import main.
Context {C : Type} {cl : io.CacheLike C}.

Lemma bytes_eqb_eq (a b : bytes) : bytes_eqb a b = true <-> a = b.
Proof.
  revert b. induction a as [|x a IH]; intros [|y b]; simpl;
    try (split; [discriminate | congruence]); [tauto|].
  rewrite andb_true_iff, IH. split.
  - intros [Hxy ->]. now rewrite (Byte.byte_dec_bl _ _ Hxy).
  - intros [= -> ->]. split; [apply Byte.byte_dec_lb|]; reflexivity.
Qed.

Lemma returned_eqb_eq (m : option bytes) (data : bytes) :
  returned_eqb m data = true <-> m = Some data.
Proof.
  destruct m as [d|]; simpl; [|split; discriminate].
  rewrite bytes_eqb_eq. split; congruence.
Qed.

(** The target check passes exactly when the [set] is accepted and the
    [get] that follows returns the very bytes that were stored; the
    assertion fails only on a [get] that returned something else; and an
    exception of either access ends the check before the assertion. *)
Theorem check_passes_iff (token : string) (data : bytes) (c : C) :
  (fst (check token data c) = CheckPassed <->
     exists u c1 c2,
       io.cache_setitem token data c = (Ok u, c1)
       /\ io.cache_getitem token c1 = (Ok (Some data), c2))
  /\ (forall m, fst (check token data c) = AssertionError m -> m <> Some data)
  /\ (forall e c1,
        io.cache_setitem token data c = (Raise e, c1) ->
        check token data c = (CheckRaised e, c1)).
Proof.
  unfold check.
  destruct (io.cache_setitem token data c) as [[u|e] c1] eqn:Hset.
  - destruct (io.cache_getitem token c1) as [[m|e] c2] eqn:Hget.
    + destruct (returned_eqb m data) eqn:E; simpl.
      * apply returned_eqb_eq in E. subst m. repeat split; try discriminate.
        intros _. now exists u, c1, c2.
      * assert (m <> Some data)
          by (intros ->; rewrite (proj2 (returned_eqb_eq _ _) eq_refl) in E;
              discriminate).
        repeat split; try discriminate.
        -- intros (u' & c1' & c2' & [= <- <-] & H2).
           rewrite Hget in H2. congruence.
        -- intros m' [= <-]. assumption.
    + simpl. repeat split; try discriminate.
      intros (u' & c1' & c2' & [= <- <-] & H2). rewrite Hget in H2. discriminate.
  - simpl. repeat split; try discriminate.
    + intros (u' & c1' & c2' & H1 & _). discriminate.
    + intros e' c1' [= <- <-]. reflexivity.
Qed.
End CheckFacts.

Lemma http_error_propagates_witness :
  @cache.__getitem__ stub.urllib _ stub.scripted stub.target stub.trigger_key
     [cache.mkResponse 503 (Some "HIT") stub.reflected_page]
  = (Raise (HTTPError 503), []).
Proof.
  assert (Hs : 400 <= cache.status_code
                        (cache.mkResponse 503 (Some "HIT") stub.reflected_page)
               < 600) by (simpl; lia).
  exact (proj1 (@http_error_propagates stub.urllib _ stub.scripted stub.target
                  stub.trigger_key stub.trigger
                  [cache.mkResponse 503 (Some "HIT") stub.reflected_page] []
                  (cache.mkResponse 503 (Some "HIT") stub.reflected_page) Hs)
               eq_refl).
Defined.

Lemma extract_first_parseable_witness :
  @cache.re_finditer stub.by_line
     ("No results for (.*)" ++ stub.trigger_key ++ "(.*)</code>")%string
     (cache.text stub.listing_page)
  = [(0, 95); (96, 203)] ++ (204, 338) :: [(339, 445)]
  /\ @cache.parse_snip stub.by_line stub.target
       (str_slice (cache.text stub.listing_page) (339 + 35) (445 - 7))
     = Ok stub.peer_data
  /\ @cache._extract stub.by_line stub.target stub.trigger_key stub.listing_page
     = Ok (Some stub.trigger).
Proof.
  assert (Hspans : @cache.re_finditer stub.by_line
                     ("No results for (.*)" ++ stub.trigger_key
                      ++ "(.*)</code>")%string
                     (cache.text stub.listing_page)
                   = [(0, 95); (96, 203)] ++ (204, 338) :: [(339, 445)])
    by (vm_compute; reflexivity).
  assert (Hfailing :
            Forall (fun span =>
                      @cache.snip_fails stub.by_line stub.target
                        (str_slice (cache.text stub.listing_page)
                           (fst span + 35) (snd span - 7)))
                   [(0, 95); (96, 203)]).
  { constructor; [|constructor; [|constructor]].
    - apply (@cache.missing_parameter stub.by_line stub.target _
               "q=26hqBz7TUL3ikYTGCFBp"); vm_compute; reflexivity.
    - apply (@cache.malformed_url stub.by_line); vm_compute; reflexivity. }
  split; [exact Hspans | split; [vm_compute; reflexivity|]].
  exact (@extract_first_parseable stub.by_line stub.target stub.trigger_key
           stub.listing_page [(0, 95); (96, 203)] [(339, 445)] 204 338
           stub.trigger Hspans Hfailing eq_refl).
Defined.

Lemma request_arguments_witness :
  cache.key stub.target <> cache.slot stub.target
  /\ dict_get (@cache.getitem_query stub.urllib stub.target stub.trigger_key)
              (cache.slot stub.target) = None.
Proof.
  assert (Hne : cache.key stub.target <> cache.slot stub.target) by discriminate.
  split; [exact Hne|].
  destruct (@request_arguments stub.urllib stub.target stub.trigger_key
              stub.trigger Hne) as (_ & _ & _ & Hslot & _).
  exact Hslot.
Defined.

Lemma collision_without_payload_witness :
  @cache.__setitem__ stub.urllib _ stub.scripted stub.target stub.token0 [x41]
     [stub.blank_page; stub.stored_page]
  = (Raise (AlreadyCachedException stub.token0 None), [stub.stored_page])
  /\ @io.write_chunk stub.shortuuid _
       (@Cache_CacheLike stub.urllib _ stub.scripted stub.target)
       2 (io.mkCacheWriter 1024 [0%nat]) [x41]
       (stub.channel7 [stub.blank_page; stub.stored_page])
     = Some (Ok tt,
             io.mkWorld [] (session.mkSession 7 2 65535)
               [io.WriterChecking 0 stub.token0;
                io.WriterChecking 1 stub.token1; io.WroteData 1 [x41]]).
Proof.
  assert (Hok : 200 <= cache.status_code stub.blank_page < 300) by (simpl; lia).
  assert (Hok2 : 200 <= cache.status_code stub.stored_page < 300)
    by (simpl; lia).
  assert (Hnone : @cache.no_payload stub.urllib stub.target stub.token0
                    stub.blank_page) by (vm_compute; constructor).
  destruct (@collision_without_payload stub.shortuuid stub.urllib _
              stub.scripted stub.target (io.mkCacheWriter 1024 [0%nat])
              0%nat [x41] (stub.channel7 [stub.blank_page; stub.stored_page])
              0 stub.token0 (session.mkSession 7 1 65535) [stub.stored_page]
              stub.blank_page eq_refl eq_refl Hok eq_refl Hnone)
    as (Hset & _ & _ & Hnext).
  split; [exact Hset|].
  exact (Hnext stub.token1 (session.mkSession 7 2 65535) [] stub.stored_page
           eq_refl eq_refl Hok2 eq_refl).
Defined.

Lemma reader_skips_blank_page_witness :
  @io.readinto stub.shortuuid _
     (@Cache_CacheLike stub.urllib _ stub.scripted stub.target)
     2 (io.Bytearray []) (stub.channel7 [stub.blank_page; stub.peer_page])
  = Some (Ok 4, io.Bytearray stub.peer_data,
          io.mkWorld [] (session.mkSession 7 2 65535)
            [io.ReaderChecking 0 stub.token0; io.ReaderChecking 1 stub.token1;
             io.ReadData 1 stub.peer_data]).
Proof.
  assert (Hok : 200 <= cache.status_code stub.blank_page < 300) by (simpl; lia).
  assert (Hok2 : 200 <= cache.status_code stub.peer_page < 300) by (simpl; lia).
  assert (Hnone : @cache.no_payload stub.urllib stub.target stub.token0
                    stub.blank_page) by (vm_compute; constructor).
  assert (Hrefl : @cache.reflects stub.urllib stub.target stub.token1
                    stub.peer_page
                    (string_of_list_byte
                       (base64.urlsafe_b64encode stub.peer_data))).
  { exists 0, 90, [], "q=4VDK&p=cGVlcg==".
    repeat split; vm_compute; reflexivity. }
  assert (Hd : stub.peer_data <> []) by discriminate.
  exact (proj2 (proj2 (proj2
           (@reader_skips_blank_page stub.shortuuid stub.urllib _ stub.scripted
              stub.target 0%nat (io.Bytearray [])
              (stub.channel7 [stub.blank_page; stub.peer_page])
              0 stub.token0 (session.mkSession 7 1 65535) [stub.peer_page]
              stub.blank_page eq_refl eq_refl Hok eq_refl Hnone)))
           stub.token1 (session.mkSession 7 2 65535) [] stub.peer_page
           [] stub.peer_data eq_refl eq_refl Hok2 eq_refl Hrefl Hd eq_refl).
Defined.

Lemma check_passes_iff_witness :
  fst (@main.check _ (@Cache_CacheLike stub.urllib _ stub.scripted stub.target)
         stub.trigger_key stub.trigger [stub.fresh_page; stub.cached_page])
  = main.CheckPassed.
Proof.
  apply (proj1 (@check_passes_iff _
                  (@Cache_CacheLike stub.urllib _ stub.scripted stub.target)
                  stub.trigger_key stub.trigger
                  [stub.fresh_page; stub.cached_page])).
  exists tt, [stub.cached_page], []. split; reflexivity.
Defined.

(* ================================================================== *)
(** * Further facts: the reader *)

Section ReaderMore.
Import session io.
Context {su : Shortuuid} {C : Type} {cl : CacheLike C}.

Lemma checks_app (a b : list event) : checks (a ++ b) = checks a + checks b.
Proof.
  induction a as [|e a IH]; [reflexivity|].
  destruct e; cbn [checks app]; rewrite IH; lia.
Qed.

Lemma rewinds_app (a b : list event) : rewinds (a ++ b) = rewinds a + rewinds b.
Proof.
  induction a as [|e a IH]; [reflexivity|].
  destruct e; cbn [rewinds app]; rewrite IH; lia.
Qed.

Lemma read_data_app (a b : list event) :
  read_data (a ++ b) = read_data a ++ read_data b.
Proof.
  induction a as [|e a IH]; [reflexivity|].
  destruct e; simpl; now rewrite ?IH.
Qed.

Lemma len_ge_gtb (d content : bytes) :
  len d <= len content -> (len d >? len content) = false.
Proof. intros H. rewrite Z.gtb_ltb. apply Z.ltb_ge. exact H. Qed.

(** A memoryview that is large enough takes the payload: with a non-empty
    payload [d] cached at the current token and a memoryview of at least
    [len(d)] bytes, [readinto] writes [d] over the first [len(d)] bytes,
    leaves the rest and the length of the memoryview as they were, advances
    the session and returns [len(d)]. *)
Theorem memoryview_takes_payload (fuel : nat) (content d : bytes) (w : world C)
    (k : Z) (tok : string) (sess : Session) (c : C) :
  __next__ (the_session w) = Some (Ok ((k, tok), sess)) ->
  cache_getitem tok (the_cache w) = (Ok (Some d), c) ->
  d <> [] -> len d <= len content ->
  exists content' : bytes,
    readinto (S fuel) (Memoryview content) w
    = Some (Ok (len d), Memoryview content',
            mkWorld c sess ((events w ++ [ReaderChecking k tok]) ++ [ReadData k d]))
    /\ firstn (List.length d) content' = d
    /\ skipn (List.length d) content' = skipn (List.length d) content
    /\ List.length content' = List.length content
    /\ session.step sess = session.step (the_session w) + 1.
Proof.
  intros Hnext Hget Hd Hlen.
  exists (d ++ skipn (Z.to_nat (len d)) content).
  assert (Hnat : Z.to_nat (len d) = List.length d) by (unfold len; lia).
  split; [|split; [|split; [|split]]].
  - simpl. rewrite Hnext, Hget, (truthy_nonempty d Hd). simpl payload.
    now rewrite (len_ge_gtb _ _ Hlen).
  - rewrite firstn_app, firstn_all, Nat.sub_diag. simpl. apply app_nil_r.
  - rewrite Hnat, skipn_app, skipn_all, Nat.sub_diag. reflexivity.
  - rewrite Hnat, length_app, length_skipn. unfold len in Hlen. lia.
  - now destruct (next_yields _ _ _ _ Hnext) as (_ & _ & ->).
Qed.

(** A postponed read is not lost: after a read that was refused for a
    memoryview too small, a second read with a memoryview that is large
    enough probes the same token again and, the cache answering it as
    before, returns the payload and advances the session. *)
Theorem postponed_read_returns (fuel fuel' : nat) (small large d : bytes)
    (w : world C) (k : Z) (tok : string) (sess : Session) (c c' : C) :
  __next__ (the_session w) = Some (Ok ((k, tok), sess)) ->
  cache_getitem tok (the_cache w) = (Ok (Some d), c) ->
  cache_getitem tok c = (Ok (Some d), c') ->
  len small < len d <= len large ->
  exists (w1 w2 : world C) (ev : list event),
    readinto (S fuel) (Memoryview small) w = Some (Ok 0, Memoryview small, w1)
    /\ readinto (S fuel') (Memoryview large) w1
       = Some (Ok (len d),
               Memoryview (d ++ skipn (List.length d) large), w2)
    /\ events w2 = ev ++ [ReaderChecking k tok; ReadData k d]
    /\ session.step (the_session w2) = k + 1.
Proof.
  intros Hnext Hget Hget' [Hsmall Hlarge].
  assert (Hd : truthy (Some d) = true).
  { apply truthy_nonempty. intros ->. unfold len in Hsmall. simpl in Hsmall. lia. }
  destruct (next_yields _ _ _ _ Hnext) as (Hk & _ & Hsess).
  assert (Hnat : Z.to_nat (len d) = List.length d) by (unfold len; lia).
  set (ev1 := ((events w ++ [ReaderChecking k tok]) ++ [ReadData k d])
              ++ [MemoryviewTooSmall (len small) (len d)]).
  exists (mkWorld c (set_step sess (session.step sess - 1)) ev1),
         (mkWorld c' sess ((ev1 ++ [ReaderChecking k tok]) ++ [ReadData k d])),
         ev1.
  split; [|split; [|split]].
  - simpl. rewrite Hnext, Hget, Hd. simpl payload.
    replace (len d >? len small) with true
      by (symmetry; rewrite Z.gtb_ltb; apply Z.ltb_lt; lia).
    reflexivity.
  - cbn [readinto the_session the_cache events].
    assert (Hback : set_step sess (session.step sess - 1) = the_session w)
      by (rewrite Hsess; apply set_step_back).
    rewrite Hback, Hnext, Hget', Hd. simpl payload.
    rewrite (len_ge_gtb _ _ Hlarge), Hnat. reflexivity.
  - cbn [events]. rewrite <- app_assoc. reflexivity.
  - cbn [the_session]. subst sess k. reflexivity.
Qed.

(** Exceptions of the cache other than [NotCachedException] leave
    [readinto] as they are, with the destination untouched and the token
    spent; and a destination that is neither a bytearray nor a memoryview
    raises [ValueError] once a payload is there to be stored. *)
Theorem readinto_raises (fuel : nat) (b : buffer) (w : world C)
    (k : Z) (tok : string) (sess : Session) (c : C) :
  __next__ (the_session w) = Some (Ok ((k, tok), sess)) ->
  (forall e : exn,
      cache_getitem tok (the_cache w) = (Raise e, c) ->
      (forall missed, e <> NotCachedException missed) ->
      readinto (S fuel) b w
      = Some (Raise e, b, mkWorld c sess (events w ++ [ReaderChecking k tok])))
  /\ (forall d : bytes,
        cache_getitem tok (the_cache w) = (Ok (Some d), c) -> d <> [] ->
        readinto (S fuel) OtherObject w
        = Some (Raise ValueError, OtherObject,
                mkWorld c sess
                  ((events w ++ [ReaderChecking k tok]) ++ [ReadData k d])))
  /\ session.step sess = session.step (the_session w) + 1.
Proof.
  intros Hnext. split; [|split].
  - intros e Hget Hne. simpl. rewrite Hnext, Hget.
    destruct e as [| | | | missed | | |]; try reflexivity.
    now elim (Hne missed).
  - intros d Hget Hd. simpl.
    now rewrite Hnext, Hget, (truthy_nonempty d Hd).
  - now destruct (next_yields _ _ _ _ Hnext) as (_ & _ & ->).
Qed.

(** However a call of [readinto] ends, by a return or by an exception, it
    leaves the channel and the modulus of the session alone, and the step
    where it was plus one per token probed, minus the one step taken back
    when a payload was postponed; the session never ends behind where it
    started. *)
Theorem readinto_step_accounting (fuel : nat) :
  forall (b b' : buffer) (w w' : world C) (r : result Z),
    readinto fuel b w = Some (r, b', w') ->
    port (the_session w') = port (the_session w)
    /\ max_step (the_session w') = max_step (the_session w)
    /\ exists new : list event,
         events w' = events w ++ new
         /\ session.step (the_session w')
            = session.step (the_session w) + checks new - rewinds new
         /\ 0 <= rewinds new <= 1
         /\ session.step (the_session w) <= session.step (the_session w').
Proof.
  induction fuel as [|fuel IH]; intros b b' w w' r; simpl; [discriminate|].
  destruct (__next__ (the_session w)) as [[[[k tok] sess]|e]|] eqn:Hnext;
    [| |discriminate].
  - destruct (next_yields _ _ _ _ Hnext) as (-> & _ & ->).
    destruct (cache_getitem tok (the_cache w)) as [[data|e] c].
    + destruct (truthy data).
      * destruct b as [prior|content|].
        -- intros [= <- <- <-]. simpl. repeat split.
           eexists. split; [rewrite <- app_assoc; reflexivity|]. simpl. lia.
        -- destruct (len (payload data) >? len content);
             intros [= <- <- <-]; simpl; repeat split;
             eexists; (split; [rewrite <- !app_assoc; reflexivity|]); simpl; lia.
        -- intros [= <- <- <-]. simpl. repeat split.
           eexists. split; [rewrite <- app_assoc; reflexivity|]. simpl. lia.
      * intros Hrun.
        destruct (IH _ _ _ _ _ Hrun) as (Hp & Hm & new & Hev & Hstep & Hrw & Hle).
        simpl in *. repeat split; try assumption.
        exists (ReaderChecking (session.step (the_session w)) tok :: new).
        split; [now rewrite Hev, <- app_assoc|]. cbn [checks rewinds]. lia.
    + destruct e; intros [= <- <- <-]; simpl; repeat split;
        eexists; (split; [rewrite <- ?app_assoc; reflexivity|]); simpl; lia.
  - intros [= <- <- <-]. repeat split.
    exists []. rewrite app_nil_r. simpl. repeat split; lia.
Qed.

Lemma readinto_bytearray (fuel : nat) :
  forall (prior : bytes) (b' : buffer) (w w' : world C) (n : Z),
    readinto fuel (Bytearray prior) w = Some (Ok n, b', w') ->
    exists new : list event,
      events w' = events w ++ new
      /\ ((n = 0 /\ b' = Bytearray prior /\ read_data new = []
           /\ exists before k, new = before ++ [NotCached k])
          \/ (exists d, d <> [] /\ b' = Bytearray d /\ n = len d
                        /\ read_data new = [d])).
Proof.
  induction fuel as [|fuel IH]; intros prior b' w w' n; simpl; [discriminate|].
  destruct (__next__ (the_session w)) as [[[[k tok] sess]|e]|];
    [|discriminate..].
  destruct (cache_getitem tok (the_cache w)) as [[data|e] c].
  - destruct (truthy data) eqn:Ht.
    + destruct (truthy_payload data Ht) as [_ Hne].
      intros [= <- <- <-]. simpl.
      exists [ReaderChecking k tok; ReadData k (payload data)].
      split; [now rewrite <- app_assoc|].
      right. exists (payload data). now repeat split.
    + intros Hrun. destruct (IH _ _ _ _ _ Hrun) as (new & Hev & Hcase).
      simpl in Hev. exists (ReaderChecking k tok :: new).
      split; [now rewrite Hev, <- app_assoc|].
      destruct Hcase as [(Hn & Hb & Hrd & before & k' & Hnew) | Hpay].
      * left. repeat split; try assumption.
        exists (ReaderChecking k tok :: before), k'. now rewrite Hnew.
      * right. exact Hpay.
  - destruct e; try discriminate.
    intros [= <- <- <-]. simpl.
    exists [ReaderChecking k tok; NotCached k].
    split; [now rewrite <- app_assoc|].
    left. repeat split. now exists [ReaderChecking k tok], k.
Qed.

Lemma read_returns (fuel : nat) (size : Z) (w w' : world C) (data : bytes) :
  read fuel size w = Some (Ok data, w') ->
  exists new : list event,
    events w' = events w ++ new
    /\ ((data = [] /\ read_data new = []
         /\ exists before k, new = before ++ [NotCached k])
        \/ (data <> [] /\ read_data new = [data])).
Proof.
  unfold read.
  destruct (readinto fuel _ w) as [[[[n|e] b'] w1]|] eqn:Hrun; try discriminate.
  intros [= <- <-].
  destruct (readinto_bytearray _ _ _ _ _ _ Hrun) as (new & Hev & Hcase).
  exists new. split; [exact Hev|].
  destruct Hcase as [(-> & -> & Hrd & Hlast) | (d & Hd & -> & -> & Hrd)].
  - left. now repeat split.
  - right. simpl. unfold len. rewrite Nat2Z.id, firstn_all. now split.
Qed.

(** [reader.read()] gathers what it read: a call of [readall] that returns
    gives back, after what it was handed, the payloads it read from the
    cache in the order of the tokens, whole, and it has stopped on a MISS. *)
Theorem readall_gathers_payloads (rounds fuel : nat) :
  forall (res out : bytes) (w w' : world C),
    readall rounds fuel res w = Some (Ok out, w') ->
    exists (new before : list event) (k : Z),
      events w' = events w ++ new
      /\ out = res ++ List.concat (read_data new)
      /\ new = before ++ [NotCached k].
Proof.
  induction rounds as [|rounds IH]; intros res out w w'; simpl; [discriminate|].
  destruct (read fuel DEFAULT_BUFFER_SIZE w) as [[[data|e] w1]|] eqn:Hread;
    try discriminate.
  destruct (read_returns _ _ _ _ _ Hread) as (new1 & Hev1 & Hcase).
  destruct data as [|x data].
  - intros [= <- <-].
    destruct Hcase as [(_ & Hrd & before & k & Hnew) | [Hne _]]; [|congruence].
    exists new1, before, k. rewrite Hrd. simpl. now rewrite app_nil_r.
  - intros Hrest.
    destruct Hcase as [(Hnil & _) | (_ & Hrd)]; [discriminate|].
    destruct (IH _ _ _ _ Hrest) as (new2 & before & k & Hev2 & Hout & Hnew).
    exists (new1 ++ new2), (new1 ++ before), k.
    split; [now rewrite Hev2, Hev1, <- app_assoc|]. split.
    + rewrite Hout, read_data_app, Hrd. simpl.
      now rewrite <- app_assoc.
    + now rewrite Hnew, <- app_assoc.
Qed.
End ReaderMore.

(* ================================================================== *)
(** * Further facts: the writer *)

Section WriterMore.
Import session io.
Context {su : Shortuuid} {C : Type} {cl : CacheLike C}.

Lemma encountered_app (a b : list event) :
  encountered (a ++ b) = encountered a ++ encountered b.
Proof.
  induction a as [|e a IH]; [reflexivity|].
  destruct e; simpl; now rewrite ?IH.
Qed.

Lemma encountered_notify (self : CacheWriter) (d : bytes) :
  encountered (notify self d) = [].
Proof. unfold notify. induction (_consumers self); simpl; auto. Qed.

Lemma checks_notify (self : CacheWriter) (d : bytes) : checks (notify self d) = 0.
Proof. unfold notify. induction (_consumers self); simpl; auto. Qed.

(** What one chunk's loop leaves behind, however it ends. *)
Lemma write_chunk_trace (self : CacheWriter) (chunk : bytes) (fuel : nat) :
  forall (w w' : world C) (r : result unit),
    write_chunk fuel self chunk w = Some (r, w') ->
    port (the_session w') = port (the_session w)
    /\ max_step (the_session w') = max_step (the_session w)
    /\ exists new : list event,
         events w' = events w ++ new
         /\ session.step (the_session w')
            = session.step (the_session w) + checks new
         /\ calls new
            = flat_map (fun d => map (fun func => (func, d)) (_consumers self))
                       (encountered new)
         /\ Forall (fun d => d <> []) (encountered new)
         /\ wrote new
            = match r with
              | Ok _ => [(session.step (the_session w') - 1, chunk)]
              | Raise _ => []
              end.
Proof.
  induction fuel as [|fuel IH]; intros w w' r; simpl; [discriminate|].
  destruct (__next__ (the_session w)) as [[[[k tok] sess]|e]|] eqn:Hnext;
    [| |discriminate].
  - destruct (next_yields _ _ _ _ Hnext) as (-> & _ & ->).
    destruct (cache_setitem tok chunk (the_cache w)) as [[u|e] c].
    + intros [= <- <-]. simpl. repeat split.
      eexists. split; [rewrite <- app_assoc; reflexivity|].
      simpl. repeat split; try constructor; try lia.
      do 2 f_equal. lia.
    + destruct e as [| | | | | held data | |];
        try (intros [= <- <-]; simpl; repeat split;
             eexists; (split; [reflexivity|]); simpl;
             repeat split; try constructor; lia).
      destruct (truthy data) eqn:Ht; intros Hrun;
        destruct (IH _ _ _ Hrun)
          as (Hp & Hm & new & Hev & Hstep & Hcalls & Hne & Hw);
        simpl in Hp, Hm, Hev, Hstep; (split; [exact Hp | split; [exact Hm|]]).
      * destruct (truthy_payload data Ht) as [_ Hd].
        exists (WriterChecking (session.step (the_session w)) tok
                :: WriterEncountered (session.step (the_session w)) (payload data)
                :: notify self (payload data) ++ new).
        split; [rewrite Hev, <- !app_assoc; reflexivity|].
        cbn [checks calls encountered wrote].
        rewrite checks_app, checks_notify, calls_app, calls_notify,
          encountered_app, encountered_notify, wrote_app, wrote_notify.
        cbn [app flat_map]. rewrite Hcalls.
        repeat split; [lia | constructor; assumption | exact Hw].
      * exists (WriterChecking (session.step (the_session w)) tok :: new).
        split; [rewrite Hev, <- !app_assoc; reflexivity|].
        cbn [checks calls encountered wrote].
        repeat split; [lia | exact Hcalls | exact Hne | exact Hw].
  - intros [= <- <-]. repeat split.
    exists []. rewrite app_nil_r. simpl. repeat split; [lia | constructor].
Qed.

(** What the loop over the chunks leaves behind, however it ends. *)
Lemma write_chunks_trace (self : CacheWriter) (fuel : nat) (cs : list bytes) :
  forall (w w' : world C) (r : result unit),
    write_chunks fuel self cs w = Some (r, w') ->
    port (the_session w') = port (the_session w)
    /\ max_step (the_session w') = max_step (the_session w)
    /\ exists (new : list event) (rest : list bytes),
         events w' = events w ++ new
         /\ session.step (the_session w')
            = session.step (the_session w) + checks new
         /\ calls new
            = flat_map (fun d => map (fun func => (func, d)) (_consumers self))
                       (encountered new)
         /\ Forall (fun d => d <> []) (encountered new)
         /\ cs = map snd (wrote new) ++ rest
         /\ (rest = [] <-> exists u, r = Ok u)
         /\ Z.of_nat (List.length (wrote new)) <= checks new.
Proof.
  induction cs as [|chunk cs IH]; intros w w' r; simpl.
  - intros [= <- <-]. repeat split.
    exists [], []. rewrite app_nil_r. simpl.
    repeat split; try constructor; try lia. now exists tt.
  - destruct (write_chunk fuel self chunk w) as [[[u|e] w1]|] eqn:E;
      try discriminate.
    + intros Hrest.
      destruct (write_chunk_trace _ _ _ _ _ _ E)
        as (Hp1 & Hm1 & new1 & Hev1 & Hs1 & Hc1 & Hn1 & Hw1).
      destruct (IH _ _ _ Hrest)
        as (Hp2 & Hm2 & new2 & rest & Hev2 & Hs2 & Hc2 & Hn2 & Hcs & Hr & Hle).
      split; [congruence | split; [congruence|]].
      assert (Hpos : 1 <= checks new1).
      { destruct (write_chunk_wrote _ _ _ _ _ _ E) as (_ & k & _ & _ & Hk & _).
        lia. }
      exists (new1 ++ new2), rest.
      rewrite checks_app, calls_app, encountered_app, wrote_app, flat_map_app,
        Hw1, Hc1, Hc2.
      split; [now rewrite Hev2, Hev1, <- app_assoc|].
      split; [lia|].
      split; [reflexivity|].
      split; [apply Forall_app; now split|].
      split; [simpl; now rewrite <- Hcs|].
      split; [exact Hr|].
      rewrite length_app. simpl List.length. lia.
    + intros [= <- <-].
      destruct (write_chunk_trace _ _ _ _ _ _ E)
        as (Hp1 & Hm1 & new1 & Hev1 & Hs1 & Hc1 & Hn1 & Hw1).
      split; [exact Hp1 | split; [exact Hm1|]].
      exists new1, (chunk :: cs). rewrite Hw1. simpl.
      repeat split; try assumption; try discriminate.
      * intros [u Hu]. discriminate.
      * clear. induction new1 as [|e l IHl]; [simpl; lia|].
        destruct e; cbn [checks]; lia.
Qed.

(** Degenerate sizes: [write] with a chunk size of zero raises
    [ValueError] before anything is sent; with a negative chunk size it
    sends nothing and still returns [len(data)]; and with nothing to write
    it returns 0.  None of them touches the cache, the session or the
    consumers. *)
Theorem write_degenerate_sizes (fuel : nat) (self : CacheWriter) (data : bytes)
    (w : world C) :
  (chunk_size self = 0 -> write fuel self data w = Some (Raise ValueError, w))
  /\ (chunk_size self < 0 -> write fuel self data w = Some (Ok (len data), w))
  /\ (chunk_size self <> 0 -> write fuel self [] w = Some (Ok 0, w)).
Proof.
  unfold write, chunks, range0. repeat split.
  - intros ->. reflexivity.
  - intros H. destruct (chunk_size self =? 0) eqn:E0; [apply Z.eqb_eq in E0; lia|].
    destruct (chunk_size self <? 0) eqn:E1; [|apply Z.ltb_ge in E1; lia].
    reflexivity.
  - intros H. destruct (chunk_size self =? 0) eqn:E0;
      [apply Z.eqb_eq in E0; contradiction|].
    destruct (chunk_size self <? 0) eqn:E1; [reflexivity|].
    apply Z.ltb_ge in E1. unfold len. simpl List.length.
    replace ((Z.of_nat 0 + chunk_size self - 1) / chunk_size self) with 0
      by (symmetry; apply Z.div_small; lia).
    reflexivity.
Qed.


(** Every payload the writer comes across is handed to every subscribed
    consumer, once each and in the order of subscription, and nothing else
    is: the calls of a [write] are those, payload after payload, and no
    consumer is ever called with empty data. *)
Theorem write_calls_every_consumer (fuel : nat) (self : CacheWriter)
    (data : bytes) (w w' : world C) (r : result Z) :
  write fuel self data w = Some (r, w') ->
  exists new : list event,
    events w' = events w ++ new
    /\ calls new
       = flat_map (fun d => map (fun func => (func, d)) (_consumers self))
                  (encountered new)
    /\ Forall (fun d => d <> []) (encountered new)
    /\ Forall (fun call => snd call <> [] /\ In (fst call) (_consumers self))
              (calls new).
Proof.
  unfold write.
  destruct (chunks (chunk_size self) data) as [cs|e].
  - destruct (write_chunks fuel self cs w) as [[[u|e] w1]|] eqn:E;
      try discriminate; intros [= <- <-];
      destruct (write_chunks_trace _ _ _ _ _ _ E)
        as (_ & _ & new & rest & Hev & _ & Hcalls & Hne & _);
      exists new; (split; [exact Hev | split; [exact Hcalls | split; [exact Hne|]]]);
      rewrite Hcalls; apply Forall_forall; intros [f d] Hin;
      apply in_flat_map in Hin; destruct Hin as (d' & Hd' & Hin);
      apply in_map_iff in Hin; destruct Hin as (f' & [= <- <-] & Hf);
      (split; [exact (proj1 (Forall_forall _ _) Hne _ Hd') | exact Hf]).
  - intros [= <- <-]. exists []. rewrite app_nil_r. simpl.
    repeat split; constructor.
Qed.

(** However [write] ends, it leaves the channel and the modulus of the
    session alone and the step where it was plus one per token it tried;
    the tokens it tried are at least as many as the chunks it wrote. *)
Theorem write_step_accounting (fuel : nat) (self : CacheWriter) (data : bytes)
    (w w' : world C) (r : result Z) :
  write fuel self data w = Some (r, w') ->
  port (the_session w') = port (the_session w)
  /\ max_step (the_session w') = max_step (the_session w)
  /\ exists new : list event,
       events w' = events w ++ new
       /\ session.step (the_session w')
          = session.step (the_session w) + checks new
       /\ Z.of_nat (List.length (wrote new)) <= checks new.
Proof.
  unfold write.
  destruct (chunks (chunk_size self) data) as [cs|e].
  - destruct (write_chunks fuel self cs w) as [[[u|e] w1]|] eqn:E;
      try discriminate; intros [= <- <-];
      destruct (write_chunks_trace _ _ _ _ _ _ E)
        as (Hp & Hm & new & rest & Hev & Hs & _ & _ & _ & _ & Hle);
      (split; [exact Hp | split; [exact Hm|]]); exists new; now repeat split.
  - intros [= <- <-]. repeat split. exists []. rewrite app_nil_r. simpl.
    repeat split; lia.
Qed.

Lemma existsb_eqb_In (func : consumer) (l : list consumer) :
  existsb (Nat.eqb func) l = true <-> In func l.
Proof.
  rewrite existsb_exists. split.
  - intros (x & Hx & E). apply Nat.eqb_eq in E. now subst.
  - intros H. exists func. split; [exact H | apply Nat.eqb_refl].
Qed.

Lemma list_remove_absent (func : consumer) (l : list consumer) :
  ~ In func l -> list_remove func l = l.
Proof.
  induction l as [|f l IH]; simpl; [reflexivity|]. intros H.
  destruct (Nat.eqb f func) eqn:E; [apply Nat.eqb_eq in E; tauto|].
  rewrite IH; tauto.
Qed.

Lemma list_remove_NoDup (func : consumer) (l : list consumer) :
  NoDup l -> NoDup (list_remove func l) /\ ~ In func (list_remove func l).
Proof.
  induction 1 as [|f l Hf Hnd IH]; simpl; [split; [constructor | tauto]|].
  destruct (Nat.eqb f func) eqn:E.
  - apply Nat.eqb_eq in E. subst. now split.
  - apply Nat.eqb_neq in E. destruct IH as [IH1 IH2].
    assert (Hsub : forall x, In x (list_remove func l) -> In x l).
    { clear. induction l as [|g l IHl]; simpl; [tauto|]. intros x.
      destruct (Nat.eqb g func); simpl; intuition. }
    split; [constructor; [intros Hin; apply Hf, Hsub, Hin | exact IH1]|].
    simpl. intuition.
Qed.

(** Subscriptions: a writer whose consumers are distinct keeps them so;
    [subscribe] adds the consumer once, at the end, and is idle on one that
    is there; [unsubscribe] leaves no trace of it, and undoes the
    subscription of a consumer that was not there before. *)
Theorem subscribe_unsubscribe (self : CacheWriter) (func : consumer) :
  NoDup (_consumers self) ->
  NoDup (_consumers (subscribe self func))
  /\ In func (_consumers (subscribe self func))
  /\ subscribe (subscribe self func) func = subscribe self func
  /\ (~ In func (_consumers self) ->
      _consumers (subscribe self func) = _consumers self ++ [func]
      /\ unsubscribe (subscribe self func) func = self)
  /\ NoDup (_consumers (unsubscribe self func))
  /\ ~ In func (_consumers (unsubscribe self func))
  /\ chunk_size (subscribe self func) = chunk_size self
  /\ chunk_size (unsubscribe self func) = chunk_size self.
Proof.
  intros Hnd. unfold subscribe, unsubscribe.
  destruct (existsb (Nat.eqb func) (_consumers self)) eqn:E.
  - pose proof (proj1 (existsb_eqb_In _ _) E) as Hin.
    rewrite E. simpl.
    destruct (list_remove_NoDup func _ Hnd) as [H1 H2].
    repeat split; try assumption; tauto.
  - assert (Hout : ~ In func (_consumers self)).
    { intros Hin. apply existsb_eqb_In in Hin. congruence. }
    simpl.
    assert (Hin' : In func (_consumers self ++ [func]))
      by (apply in_or_app; right; now left).
    rewrite (proj2 (existsb_eqb_In _ _) Hin').
    destruct (list_remove_NoDup func _ Hnd) as [H1 H2].
    repeat split; try assumption.
    + apply NoDup_app; [exact Hnd | repeat constructor; simpl; tauto|].
      intros x Hx [<-|[]]. contradiction.
    + destruct self as [sz cons]. simpl in *. f_equal.
      clear - Hout. induction cons as [|f l IH]; simpl.
      * now rewrite Nat.eqb_refl.
      * destruct (Nat.eqb f func) eqn:E; [apply Nat.eqb_eq in E; simpl in Hout; tauto|].
        rewrite IH; [reflexivity | simpl in Hout; tauto].
Qed.
End WriterMore.

Section ZeroModulus.
Import session io.
Context {su : Shortuuid} {C : Type} {cl : CacheLike C}.

(** A session whose [max_step] is zero has no token: the property raises
    [ZeroDivisionError], and so do [readinto] and a [write] of something,
    before the cache is asked anything and with the session where it was. *)
Theorem zero_modulus_raises (fuel : nat) (b : buffer) (self : CacheWriter)
    (data : bytes) (w : world C) :
  max_step (the_session w) = 0 ->
  token (the_session w) = Some (Raise ZeroDivisionError)
  /\ readinto (S fuel) b w = Some (Raise ZeroDivisionError, b, w)
  /\ (0 < chunk_size self -> data <> [] ->
      write (S fuel) self data w = Some (Raise ZeroDivisionError, w)).
Proof.
  intros Hm.
  assert (Htok : token (the_session w) = Some (Raise ZeroDivisionError)).
  { unfold token, divmod. rewrite Hm. reflexivity. }
  assert (Hnext : __next__ (the_session w) = Some (Raise ZeroDivisionError)).
  { unfold __next__. now rewrite Htok. }
  split; [exact Htok | split].
  - simpl. now rewrite Hnext.
  - intros Hcs Hd. unfold write.
    rewrite (chunk_facts.chunks_chop _ _ Hcs).
    assert (Hn : 1 <= (len data + chunk_size self - 1) / chunk_size self).
    { apply Z.div_le_lower_bound; [lia|].
      destruct data; [congruence|]. unfold len. simpl List.length. lia. }
    destruct (Z.to_nat ((len data + chunk_size self - 1) / chunk_size self))
      as [|n] eqn:E; [lia|].
    cbn [chop write_chunks write_chunk]. now rewrite Hnext.
Qed.
End ZeroModulus.

Lemma zero_modulus_raises_witness :
  @io.readinto stub.shortuuid _ stub.store_cache 1 (io.Bytearray [])
     (io.mkWorld [] (session.mkSession 7 0 0) [])
  = Some (Raise ZeroDivisionError, io.Bytearray [],
          io.mkWorld [] (session.mkSession 7 0 0) []).
Proof.
  exact (proj1 (proj2 (@zero_modulus_raises stub.shortuuid _ stub.store_cache
                         0%nat (io.Bytearray []) (io.mkCacheWriter 1024 [])
                         stub.peer_data
                         (io.mkWorld [] (session.mkSession 7 0 0) [])
                         eq_refl))).
Defined.

Lemma memoryview_takes_payload_witness :
  stub.peer_data <> [] /\ io.len stub.peer_data <= io.len [x00; x01; x02; x03; x04; x05]
  /\ exists content',
       @io.readinto stub.shortuuid _ stub.store_cache 1
          (io.Memoryview [x00; x01; x02; x03; x04; x05])
          (stub.channel7 [(stub.token0, Some stub.peer_data)])
       = Some (Ok 4, io.Memoryview content',
               io.mkWorld [(stub.token0, Some stub.peer_data)]
                 (session.mkSession 7 1 65535)
                 [io.ReaderChecking 0 stub.token0; io.ReadData 0 stub.peer_data])
       /\ skipn 4 content' = [x04; x05].
Proof.
  assert (Hd : stub.peer_data <> []) by discriminate.
  assert (Hlen : io.len stub.peer_data <= io.len [x00; x01; x02; x03; x04; x05])
    by (vm_compute; discriminate).
  split; [exact Hd | split; [exact Hlen|]].
  destruct (@memoryview_takes_payload stub.shortuuid _ stub.store_cache 0%nat
              [x00; x01; x02; x03; x04; x05] stub.peer_data
              (stub.channel7 [(stub.token0, Some stub.peer_data)])
              0 stub.token0 (session.mkSession 7 1 65535)
              [(stub.token0, Some stub.peer_data)] eq_refl eq_refl Hd Hlen)
    as (content' & Hrun & _ & Hskip & _).
  exists content'. split; [exact Hrun | exact Hskip].
Defined.

Lemma postponed_read_returns_witness :
  io.len [x00; x00] < io.len stub.peer_data <= io.len [x00; x01; x02; x03; x04; x05]
  /\ exists w1 w2 ev,
       @io.readinto stub.shortuuid _ stub.store_cache 1 (io.Memoryview [x00; x00])
          (stub.channel7 [(stub.token0, Some stub.peer_data)])
       = Some (Ok 0, io.Memoryview [x00; x00], w1)
       /\ @io.readinto stub.shortuuid _ stub.store_cache 1
            (io.Memoryview [x00; x01; x02; x03; x04; x05]) w1
          = Some (Ok (io.len stub.peer_data),
                  io.Memoryview
                    (stub.peer_data
                     ++ skipn (List.length stub.peer_data)
                          [x00; x01; x02; x03; x04; x05]), w2)
       /\ io.events w2
          = ev ++ [io.ReaderChecking 0 stub.token0; io.ReadData 0 stub.peer_data]
       /\ session.step (io.the_session w2) = 0 + 1.
Proof.
  assert (Hlen : io.len [x00; x00] < io.len stub.peer_data
                 <= io.len [x00; x01; x02; x03; x04; x05])
    by (split; vm_compute; [reflexivity | discriminate]).
  split; [exact Hlen|].
  exact (@postponed_read_returns stub.shortuuid _ stub.store_cache 0%nat 0%nat
           [x00; x00] [x00; x01; x02; x03; x04; x05] stub.peer_data
           (stub.channel7 [(stub.token0, Some stub.peer_data)])
           0 stub.token0 (session.mkSession 7 1 65535)
           [(stub.token0, Some stub.peer_data)]
           [(stub.token0, Some stub.peer_data)] eq_refl eq_refl eq_refl Hlen).
Defined.

Lemma readinto_raises_witness :
  @io.readinto stub.shortuuid _
     (@Cache_CacheLike stub.urllib _ stub.scripted stub.target)
     1 (io.Bytearray [])
     (stub.channel7 [cache.mkResponse 503 None EmptyString])
  = Some (Raise (HTTPError 503), io.Bytearray [],
          io.mkWorld [] (session.mkSession 7 1 65535)
            [io.ReaderChecking 0 stub.token0]).
Proof.
  refine (proj1 (@readinto_raises stub.shortuuid _
                   (@Cache_CacheLike stub.urllib _ stub.scripted stub.target)
                   0%nat (io.Bytearray [])
                   (stub.channel7 [cache.mkResponse 503 None EmptyString])
                   0 stub.token0 (session.mkSession 7 1 65535) [] eq_refl)
                (HTTPError 503) eq_refl _).
  intros missed. discriminate.
Defined.

Lemma readinto_step_accounting_witness :
  @io.readinto stub.shortuuid _ stub.store_cache 2 (io.Memoryview [x00])
     (stub.channel7 [(stub.token0, None); (stub.token1, Some stub.peer_data)])
  = Some (Ok 0, io.Memoryview [x00],
          io.mkWorld [(stub.token0, None); (stub.token1, Some stub.peer_data)]
            (session.mkSession 7 1 65535)
            [io.ReaderChecking 0 stub.token0; io.ReaderChecking 1 stub.token1;
             io.ReadData 1 stub.peer_data; io.MemoryviewTooSmall 1 4])
  /\ session.port (session.mkSession 7 1 65535) = session.port (session.init 7).
Proof.
  split; [reflexivity|].
  exact (proj1 (@readinto_step_accounting stub.shortuuid _ stub.store_cache
                  2%nat (io.Memoryview [x00]) (io.Memoryview [x00])
                  (stub.channel7 [(stub.token0, None);
                                  (stub.token1, Some stub.peer_data)])
                  (io.mkWorld [(stub.token0, None);
                               (stub.token1, Some stub.peer_data)]
                     (session.mkSession 7 1 65535)
                     [io.ReaderChecking 0 stub.token0;
                      io.ReaderChecking 1 stub.token1;
                      io.ReadData 1 stub.peer_data; io.MemoryviewTooSmall 1 4])
                  (Ok 0) eq_refl)).
Defined.

Lemma readall_gathers_payloads_witness :
  exists w' new before k,
    @io.readall stub.shortuuid _ stub.store_cache 3 1 []
       (stub.channel7 [(stub.token0, Some stub.peer_data);
                       (stub.token1, Some stub.peer_data)])
    = Some (Ok (stub.peer_data ++ stub.peer_data), w')
    /\ io.events w' = [] ++ new
    /\ stub.peer_data ++ stub.peer_data = [] ++ List.concat (io.read_data new)
    /\ new = before ++ [io.NotCached k].
Proof.
  eexists.
  assert (Hrun : @io.readall stub.shortuuid _ stub.store_cache 3 1 []
                   (stub.channel7 [(stub.token0, Some stub.peer_data);
                                   (stub.token1, Some stub.peer_data)])
                 = Some (Ok (stub.peer_data ++ stub.peer_data), _))
    by (vm_compute; reflexivity).
  destruct (@readall_gathers_payloads stub.shortuuid _ stub.store_cache
              3%nat 1%nat [] _ _ _ Hrun) as (new & before & k & Hev & Hout & Hnew).
  exists new, before, k. split; [exact Hrun|]. now split.
Defined.

Lemma write_degenerate_sizes_witness :
  @io.write stub.shortuuid _ stub.store_cache 0
     (io.mkCacheWriter (-1) []) stub.peer_data (stub.channel7 [])
  = Some (Ok 4, stub.channel7 []).
Proof.
  exact (proj1 (proj2 (@write_degenerate_sizes stub.shortuuid _ stub.store_cache
                         0%nat (io.mkCacheWriter (-1) []) stub.peer_data
                         (stub.channel7 [])))
               ltac:(simpl; lia)).
Defined.


Lemma write_calls_every_consumer_witness :
  exists w' new,
    @io.write stub.shortuuid _ stub.store_cache 2
       (io.mkCacheWriter 1024 [0%nat; 1%nat]) [x41]
       (stub.channel7 [(stub.token0, Some stub.peer_data)])
    = Some (Ok 1, w')
    /\ io.events w' = [] ++ new
    /\ io.calls new
       = flat_map (fun d => map (fun func => (func, d)) [0%nat; 1%nat])
                  (io.encountered new).
Proof.
  eexists.
  assert (Hrun : @io.write stub.shortuuid _ stub.store_cache 2
                   (io.mkCacheWriter 1024 [0%nat; 1%nat]) [x41]
                   (stub.channel7 [(stub.token0, Some stub.peer_data)])
                 = Some (Ok 1, _))
    by (vm_compute; reflexivity).
  destruct (@write_calls_every_consumer stub.shortuuid _ stub.store_cache 2%nat
              (io.mkCacheWriter 1024 [0%nat; 1%nat]) [x41] _ _ _ Hrun)
    as (new & Hev & Hcalls & _).
  exists new. split; [exact Hrun|]. now split.
Defined.

Lemma write_step_accounting_witness :
  exists w',
    @io.write stub.shortuuid _ stub.store_cache 2
       (io.mkCacheWriter 1024 [0%nat; 1%nat]) [x41]
       (stub.channel7 [(stub.token0, Some stub.peer_data)])
    = Some (Ok 1, w')
    /\ session.port (io.the_session w') = 7.
Proof.
  eexists.
  assert (Hrun : @io.write stub.shortuuid _ stub.store_cache 2
                   (io.mkCacheWriter 1024 [0%nat; 1%nat]) [x41]
                   (stub.channel7 [(stub.token0, Some stub.peer_data)])
                 = Some (Ok 1, _))
    by (vm_compute; reflexivity).
  split; [exact Hrun|].
  exact (proj1 (@write_step_accounting stub.shortuuid _ stub.store_cache 2%nat
                  (io.mkCacheWriter 1024 [0%nat; 1%nat]) [x41] _ _ _ Hrun)).
Defined.

Lemma subscribe_unsubscribe_witness :
  io.unsubscribe (io.subscribe (io.mkCacheWriter 1024 [3%nat]) 5%nat) 5%nat
  = io.mkCacheWriter 1024 [3%nat].
Proof.
  assert (Hnd : NoDup (io._consumers (io.mkCacheWriter 1024 [3%nat])))
    by (repeat constructor; simpl; tauto).
  destruct (subscribe_unsubscribe (io.mkCacheWriter 1024 [3%nat]) 5%nat Hnd)
    as (_ & _ & _ & Hfresh & _).
  apply Hfresh. simpl. intros [H|[]]. discriminate.
Defined.

(* ================================================================== *)
(** * Further facts: a writer and a reader over a dictionary cache *)

Section WrittenThenRead.
Import session io.
Context {su : Shortuuid}.





Variables (p m start : Z) (n : nat) (tk : nat -> string).
Hypothesis Htk :
  forall a : nat, (a <= n)%nat ->
    token (mkSession p (start + Z.of_nat a) m) = Some (Ok (tk a)).
Hypothesis Hapart :
  forall a b : nat, (a <= n)%nat -> (b <= n)%nat -> tk a = tk b -> a = b.



End WrittenThenRead.

Section Delivery.
Import session io.
Context {su : Shortuuid}.

End Delivery.

